(** * LSH: a shallow embedding of the shell in [src/main.c]

    The development follows the source file from the leaves up: the C
    library routines the shell calls (string comparison, [strtok], the
    wait-status macros), the world the process runs in (standard streams,
    working directory, files, children), the builtins, the launcher, the
    dispatcher, the line reader, the tokenizer and the read-eval loop.

    Conventions.
    - A [char *] is modelled by the bytes stored from the pointer on; the
      C string it denotes is the prefix before the first NUL byte
      ([c_str]), and every routine that reads a [char *] reads it so.
    - A [char **] argument vector is the list of its entries, [None] for a
      NULL pointer; the tokenizer ends every vector with one [None].
    - The growable buffers of the line reader and of the tokenizer are
      lists: [malloc]/[realloc] are assumed to succeed and lengths to stay
      below [INT_MAX].
    - Everything the operating system decides (whether [fork], [chdir],
      [fopen] ... succeed, what a child reports to [waitpid], the time of
      day) is read from an oracle [OS].  A program run by a child is seen
      by the parent through [waitpid] only. *)

From stdpp Require Import gmap strings list fin_maps.
From Stdlib Require Import ZArith Ascii String Lia.

Local Open Scope string_scope.
Local Open Scope Z_scope.

(** ** Characters and C strings *)

Definition NUL : ascii := ascii_of_nat 0.
Definition BEL : ascii := ascii_of_nat 7.
Definition TAB : ascii := ascii_of_nat 9.
Definition LF  : ascii := ascii_of_nat 10.
Definition CR  : ascii := ascii_of_nat 13.
Definition SPC : ascii := ascii_of_nat 32.
Definition DQUOTE : ascii := ascii_of_nat 34.

Definition nl : string := String LF EmptyString.
Definition dq : string := String DQUOTE EmptyString.

(** The value of a [char] read as [unsigned char]. *)
Definition uchar (c : ascii) : Z := Z.of_nat (nat_of_ascii c).

(** [*p]: the byte under the pointer; past the stored bytes lies the
    terminator. *)
Definition peek (p : string) : ascii :=
  match p with
  | EmptyString => NUL
  | String c _ => c
  end.

(** [p + 1]. *)
Definition next (p : string) : string :=
  match p with
  | EmptyString => EmptyString
  | String _ p' => p'
  end.

(** The C string a pointer denotes: the bytes before the first NUL. *)
Fixpoint c_str (p : string) : string :=
  match p with
  | EmptyString => EmptyString
  | String c p' => if Ascii.eqb c NUL then EmptyString else String c (c_str p')
  end.

(** [strchr(set, c) != NULL] for [c != 0]. *)
Fixpoint mem_char (c : ascii) (set : string) : bool :=
  match set with
  | EmptyString => false
  | String d set' => Ascii.eqb c d || mem_char c set'
  end.

(** [strcmp]: byte-wise comparison up to and including the terminator. *)
Fixpoint strcmp (a b : string) : Z :=
  match a with
  | EmptyString => 0 - uchar (peek b)
  | String c a' =>
      if Ascii.eqb c (peek b)
      then (if Ascii.eqb c NUL then 0 else strcmp a' (next b))
      else uchar c - uchar (peek b)
  end.

(** [tolower] in the C locale. *)
Definition tolower (c : ascii) : ascii :=
  let n := nat_of_ascii c in
  if ((65 <=? n) && (n <=? 90))%nat then ascii_of_nat (n + 32) else c.

(** [strcasecmp]: [strcmp] on the lower-cased bytes. *)
Fixpoint strcasecmp (a b : string) : Z :=
  match a with
  | EmptyString => 0 - uchar (tolower (peek b))
  | String c a' =>
      if Ascii.eqb (tolower c) (tolower (peek b))
      then (if Ascii.eqb c NUL then 0 else strcasecmp a' (next b))
      else uchar (tolower c) - uchar (tolower (peek b))
  end.

(** [strspn(p, set)]: length of the leading run of bytes in [set]. *)
Fixpoint strspn (p set : string) : nat :=
  match p with
  | EmptyString => 0%nat
  | String c p' =>
      if negb (Ascii.eqb c NUL) && mem_char c set then S (strspn p' set) else 0%nat
  end.

(** [strcspn(p, set)]: length of the leading run of bytes not in [set]. *)
Fixpoint strcspn (p set : string) : nat :=
  match p with
  | EmptyString => 0%nat
  | String c p' =>
      if Ascii.eqb c NUL || mem_char c set then 0%nat else S (strcspn p' set)
  end.

(** [p + n]. *)
Fixpoint advance (n : nat) (p : string) : string :=
  match n with
  | O => p
  | S n' => advance n' (next p)
  end.

(** The first [n] bytes under [p]. *)
Fixpoint span (n : nat) (p : string) : string :=
  match n, p with
  | S n', String c p' => String c (span n' p')
  | _, _ => EmptyString
  end.

(** One call of [strtok]: [p] is the scan position (the argument on the
    first call, the saved position on the calls with NULL).  The result is
    the token found and the position saved for the next call, or [None]
    when only separators are left.  The token is cut out by overwriting the
    separator that follows it with NUL; the saved position is one past that
    byte, or the terminator itself when the token runs to the end. *)
Definition strtok (p delim : string) : option (string * string) :=
  let q := advance (strspn p delim) p in
  if Ascii.eqb (peek q) NUL then None
  else
    let n := strcspn q delim in
    let e := advance n q in
    Some (span n q, if Ascii.eqb (peek e) NUL then e else next e).

(** ** The tokenizer *)

Definition LSH_TOK_DELIM : string :=
  String SPC (String TAB (String CR (String LF (String BEL EmptyString)))).

Definition argv := list (option string).

(** [args[i]]: the [i]-th entry of the vector. *)
Definition entry (args : argv) (i : nat) : option string := nth i args None.

(** The C string under [args[i]], when the entry is not NULL. *)
Definition token (args : argv) (i : nat) : option string := c_str <$> entry args i.

(** The [while (token != NULL)] loop: [tok] is the result of the last call
    of [strtok]; every token is stored at the next free index and the
    vector is closed with NULL.  Each call of [strtok] moves the saved
    position forward, so [fuel] one above the length of the line is never
    used up. *)
Fixpoint split_loop (fuel : nat) (tok : option (string * string)) : argv :=
  match fuel, tok with
  | S fuel', Some (t, saved) => Some t :: split_loop fuel' (strtok saved LSH_TOK_DELIM)
  | _, _ => [None]
  end.

Definition lsh_split_line (line : string) : argv :=
  split_loop (S (String.length line)) (strtok line LSH_TOK_DELIM).

(** ** The world of the process *)

(** What the parent does with its children. *)
Inductive event : Type :=
  | EvFork (pid : positive) (cwd : string)
      (* a child was created; it inherits the working directory [cwd] *)
  | EvExecvp (pid : positive) (file : string) (args : argv)
      (* the child called [execvp(file, args)] *)
  | EvWaitpid (pid : positive) (status : Z).
      (* a call of [waitpid] came back and left [status] *)

Record World : Type := mkWorld {
  w_stdin  : string;               (* bytes not yet read; end of input after them *)
  w_stdout : string;               (* bytes written to standard output *)
  w_stderr : string;               (* bytes written to standard error *)
  w_cwd    : string;               (* working directory of the process, absolute *)
  w_files  : gmap string string;   (* regular files by absolute path *)
  w_errno  : string;               (* [strerror(errno)] *)
  w_trace  : list event             (* newest first *)
}.

Definition set_stdin (x : string) (w : World) : World :=
  mkWorld x (w_stdout w) (w_stderr w) (w_cwd w) (w_files w) (w_errno w) (w_trace w).
Definition set_stdout (x : string) (w : World) : World :=
  mkWorld (w_stdin w) x (w_stderr w) (w_cwd w) (w_files w) (w_errno w) (w_trace w).
Definition set_stderr (x : string) (w : World) : World :=
  mkWorld (w_stdin w) (w_stdout w) x (w_cwd w) (w_files w) (w_errno w) (w_trace w).
Definition set_cwd (x : string) (w : World) : World :=
  mkWorld (w_stdin w) (w_stdout w) (w_stderr w) x (w_files w) (w_errno w) (w_trace w).
Definition set_files (x : gmap string string) (w : World) : World :=
  mkWorld (w_stdin w) (w_stdout w) (w_stderr w) (w_cwd w) x (w_errno w) (w_trace w).
Definition set_errno (x : string) (w : World) : World :=
  mkWorld (w_stdin w) (w_stdout w) (w_stderr w) (w_cwd w) (w_files w) x (w_trace w).
Definition log_event (e : event) (w : World) : World :=
  mkWorld (w_stdin w) (w_stdout w) (w_stderr w) (w_cwd w) (w_files w) (w_errno w)
          (e :: w_trace w).

(** Result of a system call that can fail with an [errno]. *)
Inductive sysres (A : Type) : Type :=
  | Ok (a : A)
  | Err (errno : string).
Arguments Ok {A} a.
Arguments Err {A} errno.

(** The operating system as the process meets it. *)
Class OS : Type := {
  (* [chdir(path)]: the directory the path leads to, from the current one *)
  os_chdir : string -> World -> sysres string;
  (* [getcwd]: a failure other than a short buffer *)
  os_getcwd_err : World -> option string;
  (* [fopen(path, mode)]: a refusal other than a missing file *)
  os_fopen_err : string -> string -> World -> option string;
  (* [remove(path)]: a refusal other than a missing file *)
  os_remove_err : string -> World -> option string;
  (* local time, printed by [strftime] with "%Y-%m-%d %H:%M:%S" *)
  os_timestamp : World -> string;
  (* [fork]: the pid of the new child *)
  os_fork : World -> sysres positive;
  (* [execvp] in the child [pid] created in this world: [None] when the
     program image is loaded *)
  os_execvp : World -> positive -> argv -> option string;
  (* what the [k]-th [waitpid] for the child [pid] created in this world
     leaves in [status], when the child runs a program *)
  os_wstatus : World -> positive -> nat -> Z
}.

Definition ENOENT : string := "No such file or directory".
Definition ERANGE : string := "Numerical result out of range".

(** ** Computations: state, and a bound on blocking *)

(** A run either comes back with a value or is still under way when the
    bound on loop rounds is reached; both carry the world reached. *)
Inductive Res (A : Type) : Type :=
  | Done (a : A) (w : World)
  | Timeout (w : World).
Arguments Done {A} a w.
Arguments Timeout {A} w.

Definition M (A : Type) : Type := World -> Res A.

#[global] Instance M_ret : MRet M := fun A a w => Done a w.
#[global] Instance M_bind : MBind M := fun A B f m w =>
  match m w with
  | Done a w' => f a w'
  | Timeout w' => Timeout w'
  end.

Definition timeout {A : Type} : M A := fun w => Timeout w.

Definition world_of {A : Type} (r : Res A) : World :=
  match r with
  | Done _ w => w
  | Timeout w => w
  end.

Definition value_of {A : Type} (r : Res A) : option A :=
  match r with
  | Done a _ => Some a
  | Timeout _ => None
  end.

(** ** <sys/wait.h>, as glibc defines it for Linux *)

Definition EXIT_SUCCESS : Z := 0.
Definition EXIT_FAILURE : Z := 1.

Definition W_EXITCODE (ret sig : Z) : Z := Z.lor (Z.shiftl ret 8) sig.
Definition W_STOPCODE (sig : Z) : Z := Z.lor (Z.shiftl sig 8) 127.

(** [(signed char) x] for [0 <= x < 256]. *)
Definition signed_char (x : Z) : Z := if x <? 128 then x else x - 256.

Definition WTERMSIG (status : Z) : Z := Z.land status 127.
Definition WIFEXITED (status : Z) : bool := WTERMSIG status =? 0.
Definition WIFSIGNALED (status : Z) : bool :=
  0 <? Z.shiftr (signed_char (Z.land status 127 + 1)) 1.
Definition WIFSTOPPED (status : Z) : bool := Z.land status 255 =? 127.

(** ** System and library calls *)

Section Shell.
Context {os : OS}.

Definition printf (s : string) : M unit := fun w =>
  Done tt (set_stdout (w_stdout w ++ s) w).

(** [fprintf(stderr, ...)]. *)
Definition eprintf (s : string) : M unit := fun w =>
  Done tt (set_stderr (w_stderr w ++ s) w).

Definition perror (s : string) : M unit := fun w =>
  eprintf (s ++ ": " ++ w_errno w ++ nl) w.

(** A relative file name is looked up from the working directory. *)
Definition abspath (w : World) (name : string) : string :=
  w_cwd w ++ "/" ++ name.

(** An open stream: the file it is bound to and what is left to read. *)
Record FILE : Type := mkFILE { f_path : string; f_unread : string }.

Definition fopen (name mode : string) : M (option FILE) := fun w =>
  let path := abspath w name in
  match os_fopen_err path mode w with
  | Some e => Done None (set_errno e w)
  | None =>
      if String.eqb mode "a" then
        let old := default EmptyString (w_files w !! path) in
        Done (Some (mkFILE path EmptyString)) (set_files (<[path := old]> (w_files w)) w)
      else
        match w_files w !! path with
        | None => Done None (set_errno ENOENT w)
        | Some content => Done (Some (mkFILE path content)) w
        end
  end.

(** [fprintf(fp, ...)] on a stream opened for appending. *)
Definition fprintf (fp : FILE) (s : string) : M unit := fun w =>
  let old := default EmptyString (w_files w !! f_path fp) in
  Done tt (set_files (<[f_path fp := old ++ s]> (w_files w)) w).

Definition fclose (fp : FILE) : M unit := mret tt.

(** The lines [getline] hands out one after the other until it returns -1:
    each runs up to and including its newline; the last one may lack it. *)
Fixpoint getlines (unread : string) : list string :=
  match unread with
  | EmptyString => []
  | String c rest =>
      if Ascii.eqb c LF then String c EmptyString :: getlines rest
      else match getlines rest with
           | [] => [String c EmptyString]
           | l :: ls => String c l :: ls
           end
  end.

Definition remove (name : string) : M Z := fun w =>
  let path := abspath w name in
  match os_remove_err path w with
  | Some e => Done (-1) (set_errno e w)
  | None =>
      match w_files w !! path with
      | None => Done (-1) (set_errno ENOENT w)
      | Some _ => Done 0 (set_files (delete path (w_files w)) w)
      end
  end.

Definition chdir (path : string) : M Z := fun w =>
  match os_chdir (c_str path) w with
  | Ok dir => Done 0 (set_cwd dir w)
  | Err e => Done (-1) (set_errno e w)
  end.

(** [getcwd(buf, size)]: [None] stands for the NULL result. *)
Definition getcwd (size : nat) : M (option string) := fun w =>
  match os_getcwd_err w with
  | Some e => Done None (set_errno e w)
  | None =>
      if (size <=? String.length (w_cwd w))%nat
      then Done None (set_errno ERANGE w)
      else Done (Some (w_cwd w)) w
  end.

(** [time], [localtime] and [strftime] with "%Y-%m-%d %H:%M:%S". *)
Definition strftime_now : M string := fun w => Done (os_timestamp w) w.

(** ** Builtin commands *)

Definition handler : Type := argv -> M Z.

Definition builtin_str : list string := ["cd"; "help"; "exit"; "history"].

Definition lsh_num_builtins : nat := List.length builtin_str.

(** [while (getline(&line, &len, fp) != -1) printf("%s", line);] *)
Fixpoint print_lines (lines : list string) : M unit :=
  match lines with
  | [] => mret tt
  | line :: rest => printf (c_str line) ;; print_lines rest
  end.

Definition lsh_history (args : argv) : M Z :=
  match entry args 1 with
  | Some a1 =>
      if strcasecmp a1 "-c" =? 0 then
        r ← remove "history.txt";
        (if negb (r =? 0) then perror "Error clearing history"
         else printf ("History cleared successfully." ++ nl)) ;;
        mret 1
      else
        eprintf ("Invalid option: " ++ c_str a1 ++ nl) ;;
        eprintf ("Usage: history [-c]" ++ nl) ;;
        mret 1
  | None =>
      printf ("History of commands used:" ++ nl) ;;
      fp ← fopen "history.txt" "r";
      match fp with
      | None => eprintf ("No history found." ++ nl) ;; mret 1
      | Some f =>
          print_lines (getlines (f_unread f)) ;;
          fclose f ;;
          mret 1
      end
  end.

Definition lsh_cd (args : argv) : M Z :=
  match entry args 1 with
  | None =>
      eprintf ("lsh: expected argument to " ++ dq ++ "cd" ++ dq ++ nl) ;; mret 1
  | Some a1 =>
      r ← chdir a1;
      (if negb (r =? 0) then perror "lsh" else mret tt) ;;
      mret 1
  end.

(** The [for] loop of [lsh_help] over [builtin_str]. *)
Fixpoint print_names (names : list string) : M unit :=
  match names with
  | [] => mret tt
  | name :: rest => printf ("  " ++ name ++ nl) ;; print_names rest
  end.

Definition lsh_help (args : argv) : M Z :=
  printf ("Kritarth Dande's LSH" ++ nl) ;;
  printf ("Type program names and arguments, and hit enter." ++ nl) ;;
  printf ("The following are built in:" ++ nl) ;;
  print_names builtin_str ;;
  printf ("Use the man command for information on other programs." ++ nl) ;;
  mret 1.

Definition lsh_exit (args : argv) : M Z := mret 0.

Definition builtin_func : list handler := [lsh_cd; lsh_help; lsh_exit; lsh_history].

(** ** Launching a program *)

(** The branch [pid == 0], run by the child: [execvp(args[0], args)]; when
    that fails, [perror] on the shared standard error and
    [exit(EXIT_FAILURE)].  The result is the exit code the child's own code
    ends with, [None] when the program image took over. *)
Definition child_branch (pid : positive) (args : argv) (w : World) : option Z * World :=
  let w1 := log_event (EvExecvp pid (default EmptyString (token args 0)) args) w in
  match os_execvp w pid args with
  | Some e => (Some EXIT_FAILURE, set_stderr (w_stderr w1 ++ "lsh: " ++ e ++ nl) w1)
  | None => (None, w1)
  end.

(** What the [k]-th [waitpid] leaves in [status], for the child [pid]
    created in the world [w]. *)
Definition child_status (w : World) (pid : positive) (exited : option Z) (k : nat) : Z :=
  match exited with
  | Some code => W_EXITCODE code 0
  | None => os_wstatus w pid k
  end.

Definition waitpid (pid : positive) (status : Z) : M Z := fun w =>
  Done status (log_event (EvWaitpid pid status) w).

(** [do { waitpid(pid, &status, WUNTRACED); }
    while (!WIFEXITED(status) && !WIFSIGNALED(status));]
    [st] is the sequence of statuses the calls leave, [k] counts the calls
    made so far. *)
Fixpoint wait_loop (fuel : nat) (pid : positive) (st : nat -> Z) (k : nat) : M Z :=
  match fuel with
  | O => timeout
  | S fuel' =>
      status ← waitpid pid (st k);
      if negb (WIFEXITED status) && negb (WIFSIGNALED status)
      then wait_loop fuel' pid st (S k)
      else mret status
  end.

(** The world right after [fork] gave the parent the child [pid]. *)
Definition forked (pid : positive) (w : World) : World :=
  log_event (EvFork pid (w_cwd w)) w.

Definition lsh_launch (fuel : nat) (args : argv) : M Z := fun w =>
  match os_fork w with
  | Err e =>
      (* pid < 0 *)
      (perror "lsh" ;; mret 1) (set_errno e w)
  | Ok pid =>
      (* pid == 0, in the child *)
      let '(exited, w1) := child_branch pid args (forked pid w) in
      (* pid > 0, in the parent *)
      (wait_loop fuel pid (child_status (forked pid w) pid exited) 0 ;; mret 1) w1
  end.

(** ** The dispatcher *)

(** The [for] loop of [lsh_execute] from index [i] on, [n] names left, over
    a table of handlers [funcs] and a launcher [launch]. *)
Fixpoint scan_builtins (funcs : list handler) (launch : handler)
    (n i : nat) (args : argv) : M Z :=
  match n with
  | O => launch args
  | S n' =>
      if strcmp (default EmptyString (entry args 0)) (nth i builtin_str EmptyString) =? 0
      then nth i funcs launch args
      else scan_builtins funcs launch n' (S i) args
  end.

Definition dispatch (funcs : list handler) (launch : handler) (args : argv) : M Z :=
  match entry args 0 with
  | None => mret 1
  | Some _ => scan_builtins funcs launch lsh_num_builtins 0 args
  end.

Definition lsh_execute (fuel : nat) (args : argv) : M Z :=
  dispatch builtin_func (lsh_launch fuel) args.

(** ** Reading a line *)

(** The [while (1)] loop of [lsh_read_line] over the unread input: the
    bytes stored in the buffer and the input left.  [getchar] returns EOF
    once the input is used up, and keeps doing so. *)
Fixpoint read_chars (input : string) : string * string :=
  match input with
  | EmptyString => (EmptyString, EmptyString)
  | String c rest =>
      if Ascii.eqb c LF then (EmptyString, rest)
      else let '(buffer, unread) := read_chars rest in (String c buffer, unread)
  end.

Definition lsh_read_line : M string := fun w =>
  let '(buffer, unread) := read_chars (w_stdin w) in
  Done buffer (set_stdin unread w).

(** ** The loop *)

(** The body of [if (line[0] != '\0')]: one record for the history log. *)
Definition log_line (line : string) : M unit :=
  fp ← fopen "history.txt" "a";
  match fp with
  | Some f =>
      r ← getcwd 1024;
      cwd ← match r with
            | None => perror "getcwd error" ;; mret "unknown"
            | Some dir => mret dir
            end;
      timestamp ← strftime_now;
      fprintf f ("[" ++ c_str timestamp ++ "] [" ++ c_str cwd ++ "] " ++ c_str line ++ nl) ;;
      fclose f
  | None => mret tt
  end.

(** One round of the [do ... while (status)] loop; the value is [status]. *)
Definition lsh_round (fuel : nat) : M Z :=
  printf "> " ;;
  line ← lsh_read_line;
  (if negb (Ascii.eqb (peek line) NUL) then log_line line else mret tt) ;;
  lsh_execute fuel (lsh_split_line line).

(** [fuel] bounds the rounds of the loop and, in each round, the calls of
    [waitpid]. *)
Fixpoint lsh_loop (fuel : nat) : M unit :=
  match fuel with
  | O => timeout
  | S fuel' =>
      status ← lsh_round fuel';
      if negb (status =? 0) then lsh_loop fuel' else mret tt
  end.

Definition main (fuel : nat) : M Z :=
  lsh_loop fuel ;; mret EXIT_SUCCESS.

End Shell.

(** ** Vocabulary of the specification *)

Definition is_delim (c : ascii) : bool := mem_char c LSH_TOK_DELIM.

Fixpoint all_chars (P : ascii -> bool) (s : string) : bool :=
  match s with
  | EmptyString => true
  | String c s' => P c && all_chars P s'
  end.

Definition all_delim (s : string) : bool := all_chars is_delim s.
Definition no_delim (s : string) : bool := all_chars (fun c => negb (is_delim c)) s.

(** A string the line reader stores whole: no newline in it. *)
Definition no_newline (s : string) : bool :=
  all_chars (fun c => negb (Ascii.eqb c LF)) s.

(** Nothing, or something that begins with a separator. *)
Definition at_boundary (s : string) : bool :=
  match s with
  | EmptyString => true
  | String c _ => is_delim c
  end.

(** A string with [tolower] applied to every byte. *)
Fixpoint lower (s : string) : string :=
  match s with
  | EmptyString => EmptyString
  | String c s' => String (tolower c) (lower s')
  end.

(** The tokenizer as the specification words it: the tokens of a line are
    its maximal separator-free substrings, in order.  A line of separators
    has none; otherwise the line is a run of separators, a non-empty
    separator-free token that ends at a boundary, and a rest with the
    remaining tokens. *)
Inductive tokens_of : string -> list string -> Prop :=
  | tokens_none (s : string) :
      all_delim s = true ->
      tokens_of s []
  | tokens_next (d t s : string) (ts : list string) :
      all_delim d = true ->
      t <> EmptyString ->
      no_delim t = true ->
      at_boundary s = true ->
      tokens_of s ts ->
      tokens_of (d ++ t ++ s) (t :: ts).

(** A NULL-terminated vector holding the strings [ts]. *)
Definition vector_of (ts : list string) : argv := ((Some <$> ts) ++ [None])%list.

(** The loop test of the launcher, negated: this status ends the wait. *)
Definition ends_wait (status : Z) : bool := WIFEXITED status || WIFSIGNALED status.

(** The command names something outside the builtin table. *)
Definition is_external (args : argv) : Prop :=
  exists name, token args 0 = Some name /\ ~ In name builtin_str.

(** [n] prompts, as written by [n] rounds of the loop. *)
Fixpoint prompts (n : nat) : string :=
  match n with
  | O => EmptyString
  | S n' => "> " ++ prompts n'
  end.

(** The directories inherited by the children a trace records, newest
    first. *)
Definition fork_dirs (trace : list event) : list string :=
  omap (fun e => match e with EvFork _ cwd => Some cwd | _ => None end) trace.

(** A history record. *)
Definition record_of (timestamp dir line : string) : string :=
  "[" ++ timestamp ++ "] [" ++ dir ++ "] " ++ line ++ nl.

(** The world after [n] calls of [waitpid] for [pid], the first of them
    being call number [k] of the status sequence [st]. *)
Fixpoint log_waits (pid : positive) (st : nat -> Z) (k n : nat) (w : World) : World :=
  match n with
  | O => w
  | S n' => log_waits pid st (S k) n' (log_event (EvWaitpid pid (st k)) w)
  end.

(** Commands dispatched one after the other, as the loop does, until one of
    them signals stop. *)
Fixpoint session {os : OS} (fuel : nat) (cmds : list argv) : M Z :=
  match cmds with
  | [] => mret 1
  | args :: rest =>
      status ← lsh_execute fuel args;
      if negb (status =? 0) then session fuel rest else mret status
  end.

(** From [w] to [w'] the working directory stayed the same, and every child
    created on the way inherited it. *)
Definition steady (w w' : World) : Prop :=
  w_cwd w' = w_cwd w /\
  exists new, w_trace w' = (new ++ w_trace w)%list /\
              Forall (eq (w_cwd w)) (fork_dirs new).

(** A computation that never changes directory, and whose children inherit
    the directory it was started in. *)
Definition calm {A : Type} (m : M A) : Prop :=
  forall w, steady w (world_of (m w)).

(** A computation that always comes back. *)
Definition total {A : Type} (m : M A) : Prop :=
  forall w, exists a w', m w = Done a w'.

(** A computation that always comes back with the value [a]. *)
Definition yields {A : Type} (m : M A) (a : A) : Prop :=
  forall w, exists w', m w = Done a w'.

(** A string without a NUL byte: its own C string. *)
Definition no_nul (s : string) : bool :=
  all_chars (fun c => negb (Ascii.eqb c NUL)) s.

(** What the display loop of [history] writes for the lines [getline]
    hands out: each line as a C string. *)
Fixpoint printed_lines (lines : list string) : string :=
  match lines with
  | [] => EmptyString
  | line :: rest => c_str line ++ printed_lines rest
  end.

Definition history_header : string := "History of commands used:" ++ nl.

(** Arguments put on one line, a blank between neighbours. *)
Fixpoint join (ts : list string) : string :=
  match ts with
  | [] => EmptyString
  | t :: rest =>
      match rest with
      | [] => t
      | _ :: _ => t ++ String SPC (join rest)
      end
  end.

(** [k] empty lines. *)
Fixpoint newlines (k : nat) : string :=
  match k with
  | O => EmptyString
  | S k' => String LF (newlines k')
  end.


(** ** A sample system

    A machine with a handful of directories: [/home] and [/tmp] are
    ordinary, nothing can be opened or removed under [/ro], no process can
    be created while the shell sits in [/full], the path back to a
    directory under [/locked] cannot be searched, and [deep_dir] lies 128
    levels down, its path one byte too long for the buffer the logger
    hands to [getcwd].  The only program on the search path is [ls]; a
    child running it is stopped twice before it exits. *)
Module Sample.

Definition EROFS : string := "Read-only file system".
Definition EAGAIN : string := "Resource temporarily unavailable".
Definition EACCES : string := "Permission denied".

Definition under_ro (path : string) : bool := String.prefix "/ro/" path.

(** [n] directories, one inside the other. *)
Fixpoint nested (n : nat) : string :=
  match n with
  | O => EmptyString
  | S n' => "/deepdir" ++ nested n'
  end.

Definition deep_dir : string := nested 128.

Definition os : OS := {|
  os_chdir path w :=
    if String.eqb path "/tmp" || String.eqb path "/ro" || String.eqb path "/full"
    then Ok path else Err ENOENT;
  os_getcwd_err w := if String.prefix "/locked/" (w_cwd w) then Some EACCES else None;
  os_fopen_err path mode w := if under_ro path then Some EROFS else None;
  os_remove_err path w := if under_ro path then Some EROFS else None;
  os_timestamp w := "2024-05-17 09:30:00";
  os_fork w :=
    if String.eqb (w_cwd w) "/full" then Err EAGAIN
    else Ok (Pos.of_succ_nat (List.length (w_trace w)));
  os_execvp w pid args :=
    if bool_decide (token args 0 = Some "ls") then None else Some ENOENT;
  os_wstatus w pid k := if (k <? 2)%nat then W_STOPCODE 19 else W_EXITCODE 0 0
|}.

Definition world (input dir : string) (log : option string) : World :=
  mkWorld input EmptyString EmptyString dir
          (match log with
           | Some content => {[ dir ++ "/history.txt" := content ]}
           | None => ∅
           end)
          EmptyString [].

(** A shell in [/home] with one record in its log and nothing to read. *)
Definition home : World :=
  world EmptyString "/home" (Some ("[2024-05-16 18:02:11] [/home] ls" ++ nl)).

(** A shell in a directory under [/locked], about to read [exit]. *)
Definition locked : World := world ("exit" ++ nl) "/locked/in" None.

(** A shell in the deep directory, about to read [exit]. *)
Definition deep : World := world ("exit" ++ nl) deep_dir None.

(** A shell in [/home] about to read a line of two blanks. *)
Definition blank : World := world ("  " ++ nl ++ "exit") "/home" None.

Definition ls : argv := [Some "ls"; Some "-l"; None].

End Sample.

(** * Properties *)

(** ** Bytes and C strings *)

Lemma uchar_inj (c d : ascii) : uchar c = uchar d -> c = d.
Proof.
  unfold uchar. intros H. apply Nat2Z.inj in H.
  rewrite <- (ascii_nat_embedding c), <- (ascii_nat_embedding d). now f_equal.
Qed.

Lemma zero_minus (z : Z) : 0 - z = 0 <-> z = 0.
Proof. lia. Qed.

Lemma uchar_NUL : uchar NUL = 0.
Proof. reflexivity. Qed.

Lemma uchar_zero (c : ascii) : uchar c = 0 <-> c = NUL.
Proof.
  split; intros H.
  - apply uchar_inj. now rewrite uchar_NUL.
  - now subst.
Qed.

Lemma eqb_NUL_false (c : ascii) : Ascii.eqb c NUL = false <-> c <> NUL.
Proof. apply Ascii.eqb_neq. Qed.

Lemma peek_c_str (p : string) : peek (c_str p) = peek p.
Proof.
  destruct p as [|c p]; simpl; [reflexivity|].
  destruct (Ascii.eqb_spec c NUL) as [->|]; reflexivity.
Qed.

Lemma c_str_idem (p : string) : c_str (c_str p) = c_str p.
Proof.
  induction p as [|c p IH]; simpl; [reflexivity|].
  destruct (Ascii.eqb c NUL) eqn:E; simpl; [reflexivity|].
  now rewrite E, IH.
Qed.

Lemma c_str_empty_iff (p : string) : c_str p = EmptyString <-> peek p = NUL.
Proof.
  destruct p as [|c p]; simpl; [tauto|].
  destruct (Ascii.eqb_spec c NUL); split; congruence.
Qed.

(** [strcmp] answers 0 exactly on equal C strings. *)
Lemma strcmp_zero (a b : string) : strcmp a b = 0 <-> c_str a = c_str b.
Proof.
  revert b. induction a as [|c a IH]; intros b; simpl.
  - rewrite zero_minus, uchar_zero, <- c_str_empty_iff.
    split; congruence.
  - destruct (Ascii.eqb_spec c (peek b)) as [Hc|Hc].
    + destruct (Ascii.eqb_spec c NUL) as [Hz|Hz].
      * rewrite Hz in Hc. symmetry in Hc. apply c_str_empty_iff in Hc. rewrite Hc. tauto.
      * destruct b as [|d b]; simpl in *; [congruence|]. subst d.
        destruct (Ascii.eqb_spec c NUL); [congruence|].
        rewrite IH. split; congruence.
    + split.
      * intros H. exfalso. apply Hc, uchar_inj. lia.
      * intros H. exfalso. apply Hc.
        destruct (Ascii.eqb_spec c NUL) as [->|Hz].
        -- symmetry in H. now apply c_str_empty_iff in H.
        -- rewrite <- (peek_c_str b), <- H. reflexivity.
Qed.

Lemma tolower_NUL_iff (c : ascii) : tolower c = NUL <-> c = NUL.
Proof.
  split; [|now intros ->].
  destruct c as [[] [] [] [] [] [] [] []]; vm_compute; congruence.
Qed.

Lemma strcasecmp_zero (a b : string) :
  strcasecmp a b = 0 <-> lower (c_str a) = lower (c_str b).
Proof.
  revert b. induction a as [|c a IH]; intros b; simpl.
  - rewrite zero_minus, uchar_zero, tolower_NUL_iff, <- c_str_empty_iff.
    split.
    + now intros ->.
    + destruct (c_str b); simpl; congruence.
  - destruct (Ascii.eqb_spec (tolower c) (tolower (peek b))) as [Hc|Hc].
    + destruct (Ascii.eqb_spec c NUL) as [Hz|Hz].
      * rewrite Hz in Hc. symmetry in Hc. apply tolower_NUL_iff, c_str_empty_iff in Hc.
        rewrite Hc. tauto.
      * destruct b as [|d b]; simpl in *.
        { exfalso. now apply Hz, tolower_NUL_iff. }
        destruct (Ascii.eqb_spec d NUL) as [->|Hd].
        { exfalso. now apply Hz, tolower_NUL_iff. }
        simpl. rewrite IH, Hc. split; congruence.
    + split.
      * intros H. exfalso. apply Hc, uchar_inj. lia.
      * intros H. exfalso. apply Hc.
        destruct (Ascii.eqb_spec c NUL) as [->|Hz].
        -- simpl in H. destruct (c_str b) eqn:E; [|discriminate].
           apply c_str_empty_iff in E. now rewrite E.
        -- simpl in H. destruct b as [|d b]; simpl in *; [discriminate|].
           destruct (Ascii.eqb_spec d NUL); simpl in H; congruence.
Qed.

Lemma strcasecmp_c_str (a b : string) : strcasecmp (c_str a) b = strcasecmp a b.
Proof.
  revert b. induction a as [|c a IH]; intros b; [reflexivity|].
  cbn [c_str]. destruct (Ascii.eqb_spec c NUL) as [->|Hz].
  - cbn [strcasecmp]. change (tolower NUL) with NUL.
    destruct (Ascii.eqb_spec NUL (tolower (peek b))) as [<-|]; reflexivity.
  - cbn [strcasecmp]. now rewrite IH.
Qed.

(** Which C strings compare equal to ["-c"] when case is ignored. *)
Lemma lower_dash_c (s : string) : lower s = "-c" <-> s = "-c" \/ s = "-C".
Proof.
  split; [|intros [->| ->]; reflexivity].
  destruct s as [|c1 [|c2 [|c3 s]]]; simpl; try discriminate.
  intros H. injection H as H1 H2.
  assert (c1 = "-"%char) as ->.
  { revert H1. destruct c1 as [[] [] [] [] [] [] [] []]; vm_compute; congruence. }
  assert (c2 = "c"%char \/ c2 = "C"%char) as [-> | ->]; [|tauto..].
  revert H2. destruct c2 as [[] [] [] [] [] [] [] []]; vm_compute; intros; (discriminate || tauto).
Qed.

(** ** [strtok] and the tokenizer *)

Lemma length_advance (n : nat) (p : string) :
  String.length (advance n p) = (String.length p - n)%nat.
Proof.
  revert p. induction n as [|n IH]; intros p; simpl; [lia|].
  rewrite IH. destruct p; simpl; lia.
Qed.

(** The C string splits into the run [strspn] measures and what follows. *)
Lemma c_str_strspn (p set : string) :
  c_str p = span (strspn p set) p ++ c_str (advance (strspn p set) p).
Proof.
  induction p as [|c p IH]; [reflexivity|].
  cbn [strspn]. destruct (Ascii.eqb c NUL) eqn:Ez; cbn [negb andb]; [reflexivity|].
  destruct (mem_char c set); [|reflexivity].
  cbn [span advance next c_str]. rewrite Ez. exact (f_equal (String c) IH).
Qed.

Lemma span_strspn (p set : string) :
  all_chars (fun c => mem_char c set) (span (strspn p set) p) = true.
Proof.
  induction p as [|c p IH]; [reflexivity|].
  cbn [strspn]. destruct (negb (Ascii.eqb c NUL) && mem_char c set) eqn:E; [|reflexivity].
  apply andb_true_iff in E as [_ E]. cbn [span all_chars]. now rewrite E, IH.
Qed.

Lemma peek_strspn (p set : string) :
  peek (advance (strspn p set) p) <> NUL ->
  mem_char (peek (advance (strspn p set) p)) set = false.
Proof.
  induction p as [|c p IH]; [intros H; now contradiction H|].
  cbn [strspn]. destruct (Ascii.eqb_spec c NUL) as [->|Hz]; cbn [negb andb].
  - intros H. now contradiction H.
  - destruct (mem_char c set) eqn:E; [exact IH|]. intros _. exact E.
Qed.

Lemma c_str_strcspn (p set : string) :
  c_str p = span (strcspn p set) p ++ c_str (advance (strcspn p set) p).
Proof.
  induction p as [|c p IH]; [reflexivity|].
  cbn [strcspn]. destruct (Ascii.eqb c NUL) eqn:Ez; cbn [orb]; [cbn; now rewrite Ez|].
  destruct (mem_char c set); [reflexivity|].
  cbn [span advance next c_str]. rewrite Ez. exact (f_equal (String c) IH).
Qed.

Lemma span_strcspn (p set : string) :
  all_chars (fun c => negb (mem_char c set)) (span (strcspn p set) p) = true.
Proof.
  induction p as [|c p IH]; [reflexivity|].
  cbn [strcspn]. destruct (Ascii.eqb c NUL || mem_char c set) eqn:E; [reflexivity|].
  apply orb_false_iff in E as [_ E]. cbn [span all_chars]. now rewrite E, IH.
Qed.

Lemma peek_strcspn (p set : string) :
  peek (advance (strcspn p set) p) <> NUL ->
  mem_char (peek (advance (strcspn p set) p)) set = true.
Proof.
  induction p as [|c p IH]; [intros H; now contradiction H|].
  cbn [strcspn]. destruct (Ascii.eqb_spec c NUL) as [->|Hz]; cbn [orb].
  - intros H. now contradiction H.
  - destruct (mem_char c set) eqn:E; [intros _; exact E|exact IH].
Qed.

Lemma strcspn_pos (p set : string) :
  peek p <> NUL -> mem_char (peek p) set = false -> (0 < strcspn p set)%nat.
Proof.
  destruct p as [|c p]; simpl; [congruence|]. intros Hz Hm.
  apply eqb_NUL_false in Hz. rewrite Hz, Hm. simpl. lia.
Qed.

Lemma c_str_peek_next (p : string) :
  peek p <> NUL -> c_str p = String (peek p) (c_str (next p)).
Proof.
  destruct p as [|c p]; simpl; [congruence|]. intros Hz.
  apply eqb_NUL_false in Hz. now rewrite Hz.
Qed.

Lemma append_nil_l (s : string) : EmptyString ++ s = s.
Proof. reflexivity. Qed.

Lemma append_cons (c : ascii) (a b : string) : String c a ++ b = String c (a ++ b).
Proof. reflexivity. Qed.

Lemma append_empty_r (s : string) : s ++ EmptyString = s.
Proof. induction s as [|c s IH]; [reflexivity|]. exact (f_equal (String c) IH). Qed.

Lemma append_assoc (a b c : string) : (a ++ b) ++ c = a ++ b ++ c.
Proof. induction a as [|x a IH]; [reflexivity|]. exact (f_equal (String x) IH). Qed.

(** No token is left: the C string holds separators only. *)
Lemma strtok_none (p set : string) :
  strtok p set = None -> all_chars (fun c => mem_char c set) (c_str p) = true.
Proof.
  unfold strtok. destruct (Ascii.eqb_spec (peek (advance (strspn p set) p)) NUL) as [Hz|]; [|discriminate].
  intros _. rewrite (c_str_strspn p set).
  apply c_str_empty_iff in Hz. rewrite Hz.
  rewrite append_empty_r. apply span_strspn.
Qed.

(** A token is found: the C string is a run of separators, the token, and a
    rest at a boundary; the saved position denotes the rest without its
    leading separator, and lies further on. *)
Lemma strtok_some (p set t saved : string) :
  strtok p set = Some (t, saved) ->
  exists d rest,
    c_str p = d ++ t ++ rest /\
    all_chars (fun c => mem_char c set) d = true /\
    t <> EmptyString /\
    all_chars (fun c => negb (mem_char c set)) t = true /\
    (rest = EmptyString /\ c_str saved = EmptyString \/
     exists c, mem_char c set = true /\ rest = String c (c_str saved)) /\
    (String.length saved < String.length p)%nat.
Proof.
  unfold strtok.
  set (q := advance (strspn p set) p).
  destruct (Ascii.eqb_spec (peek q) NUL) as [|Hq]; [discriminate|].
  set (n := strcspn q set). set (e := advance n q).
  intros H. injection H as <- <-.
  pose proof (peek_strspn p set Hq) as Hm. fold q in Hm.
  pose proof (strcspn_pos q set Hq Hm) as Hn. fold n in Hn.
  exists (span (strspn p set) p), (c_str e). repeat split.
  - rewrite (c_str_strspn p set). fold q. f_equal. apply c_str_strcspn.
  - apply span_strspn.
  - destruct q as [|c q']; [now contradiction Hq|].
    destruct n; [lia|]. discriminate.
  - apply span_strcspn.
  - destruct (Ascii.eqb_spec (peek e) NUL) as [He|He].
    + left. apply c_str_empty_iff in He. tauto.
    + right. exists (peek e). split.
      * now apply peek_strcspn.
      * now apply c_str_peek_next.
  - assert (String.length e < String.length q)%nat as He.
    { unfold e. rewrite length_advance.
      assert (0 < String.length q)%nat by (destruct q; simpl; [now contradiction Hq|lia]).
      lia. }
    assert (String.length q <= String.length p)%nat as Hqp.
    { unfold q. rewrite length_advance. lia. }
    destruct (Ascii.eqb (peek e) NUL); [lia|].
    destruct e; simpl in *; lia.
Qed.

Lemma all_delim_app (d s : string) :
  all_delim (d ++ s) = all_delim d && all_delim s.
Proof.
  unfold all_delim. induction d as [|c d IH]; [reflexivity|].
  rewrite append_cons. simpl. now rewrite IH, andb_assoc.
Qed.

(** A separator in front of a line adds no token. *)
Lemma tokens_of_delim (c : ascii) (s : string) (ts : list string) :
  is_delim c = true -> tokens_of s ts -> tokens_of (String c s) ts.
Proof.
  intros Hc H. destruct H as [s Hs|d t s ts Hd Ht Hn Hb H].
  - apply tokens_none. unfold all_delim in *. simpl. now rewrite Hc, Hs.
  - change (String c (d ++ t ++ s)) with (String c d ++ t ++ s).
    apply tokens_next; try assumption.
    unfold all_delim in *. simpl. now rewrite Hc, Hd.
Qed.

Lemma split_loop_spec (n : nat) :
  forall (p : string) (fuel : nat),
    (String.length p <= n)%nat -> (n < fuel)%nat ->
    exists ts, split_loop fuel (strtok p LSH_TOK_DELIM) = vector_of ts /\
               tokens_of (c_str p) ts.
Proof.
  induction n as [|n IH]; intros p fuel Hp Hfuel;
    (destruct fuel as [|fuel]; [lia|]);
    destruct (strtok p LSH_TOK_DELIM) as [[t saved]|] eqn:E.
  - apply strtok_some in E as (_ & _ & _ & _ & _ & _ & _ & Hlen). lia.
  - exists []. split; [reflexivity|]. apply tokens_none. now apply strtok_none.
  - apply strtok_some in E as (d & rest & Hsplit & Hd & Ht & Hn & Hrest & Hlen).
    destruct (IH saved fuel) as (ts & Hts & Htok); [lia..|].
    exists (t :: ts). cbn [split_loop]. rewrite Hts. split; [reflexivity|].
    rewrite Hsplit. destruct Hrest as [[-> Hs]|(c & Hc & ->)].
    + apply tokens_next; try assumption; [reflexivity|]. now rewrite <- Hs.
    + apply tokens_next; try assumption. now apply tokens_of_delim.
  - exists []. split; [reflexivity|]. apply tokens_none. now apply strtok_none.
Qed.

Lemma tokens_of_never_empty (s : string) (ts : list string) :
  tokens_of s ts -> Forall (fun t => t <> EmptyString /\ no_delim t = true) ts.
Proof. induction 1; constructor; auto. Qed.

(** Where the separators in front of a token end is determined. *)
Lemma delim_run_unique (d d' x x' : string) :
  all_delim d = true -> all_delim d' = true ->
  x <> EmptyString -> is_delim (peek x) = false ->
  x' <> EmptyString -> is_delim (peek x') = false ->
  d ++ x = d' ++ x' -> d = d' /\ x = x'.
Proof.
  unfold all_delim. revert d'.
  induction d as [|c d IH]; intros [|c' d'] Hd Hd' Hx Hpx Hx' Hpx' E;
    rewrite ?append_nil_l, ?append_cons in E; simpl in *.
  - auto.
  - subst x. simpl in Hpx. apply andb_true_iff in Hd' as [Hc _]. congruence.
  - subst x'. simpl in Hpx'. apply andb_true_iff in Hd as [Hc _]. congruence.
  - injection E as -> E. apply andb_true_iff in Hd as [_ Hd].
    apply andb_true_iff in Hd' as [_ Hd'].
    destruct (IH d' Hd Hd' Hx Hpx Hx' Hpx' E) as [-> ->]. auto.
Qed.

(** So is the place where a token ends. *)
Lemma token_end_unique (t t' s s' : string) :
  no_delim t = true -> no_delim t' = true ->
  at_boundary s = true -> at_boundary s' = true ->
  t ++ s = t' ++ s' -> t = t' /\ s = s'.
Proof.
  unfold no_delim. revert t'.
  induction t as [|c t IH]; intros [|c' t'] Ht Ht' Hs Hs' E;
    rewrite ?append_nil_l, ?append_cons in E; simpl in *.
  - auto.
  - subst s. simpl in Hs. apply andb_true_iff in Ht' as [Hc _].
    rewrite Hs in Hc. discriminate.
  - subst s'. simpl in Hs'. apply andb_true_iff in Ht as [Hc _].
    rewrite Hs' in Hc. discriminate.
  - injection E as -> E. apply andb_true_iff in Ht as [_ Ht].
    apply andb_true_iff in Ht' as [_ Ht'].
    destruct (IH t' Ht Ht' Hs Hs' E) as [-> ->]. auto.
Qed.

Lemma token_head (t s : string) :
  t <> EmptyString -> no_delim t = true ->
  t ++ s <> EmptyString /\ is_delim (peek (t ++ s)) = false.
Proof.
  destruct t as [|c t]; [congruence|]. unfold no_delim. rewrite append_cons. simpl.
  intros _ H. apply andb_true_iff in H as [Hc _].
  split; [discriminate|]. now apply negb_true_iff.
Qed.

Lemma all_delim_no_token (d t s : string) :
  t <> EmptyString -> no_delim t = true -> all_delim (d ++ t ++ s) = false.
Proof.
  intros Ht Hn. destruct (token_head t s Ht Hn) as [Hne Hp].
  rewrite all_delim_app. apply andb_false_iff. right.
  destruct (t ++ s) as [|c r]; [congruence|].
  unfold all_delim. simpl in *. now rewrite Hp.
Qed.

(** The specification determines the token sequence of a line. *)
Lemma tokens_of_unique (s : string) (ts ts' : list string) :
  tokens_of s ts -> tokens_of s ts' -> ts = ts'.
Proof.
  intros H. revert ts'.
  induction H as [s Hs|d t s ts Hd Ht Hn Hb H IH]; intros ts' H';
    inversion H' as [s0 Hs0 E0|d0 t0 s0 ts0 Hd0 Ht0 Hn0 Hb0 H0 E0]; subst.
  - reflexivity.
  - rewrite all_delim_no_token in Hs by assumption. discriminate.
  - rewrite all_delim_no_token in Hs0 by assumption. discriminate.
  - destruct (token_head t s Ht Hn) as [Hx Hpx].
    destruct (token_head t0 s0 Ht0 Hn0) as [Hx0 Hpx0].
    destruct (delim_run_unique d0 d _ _ Hd0 Hd Hx0 Hpx0 Hx Hpx E0) as [-> E1].
    destruct (token_end_unique t0 t s0 s Hn0 Hn Hb0 Hb E1) as [-> ->].
    f_equal. now apply IH.
Qed.

Lemma lsh_split_line_spec (line : string) :
  exists ts, lsh_split_line line = vector_of ts /\ tokens_of (c_str line) ts.
Proof.
  unfold lsh_split_line. apply (split_loop_spec (String.length line)); lia.
Qed.

(** ** Computations *)

Lemma bind_done {A B : Type} (m : M A) (f : A -> M B) (w w' : World) (a : A) :
  m w = Done a w' -> (m ≫= f) w = f a w'.
Proof. unfold mbind, M_bind. now intros ->. Qed.

(** ** The dispatcher *)

Lemma token_entry (args : argv) (i : nat) (s : string) :
  token args i = Some s -> exists a, entry args i = Some a /\ c_str a = s.
Proof.
  unfold token. destruct (entry args i) as [a|]; simpl; [|discriminate].
  intros H. injection H as <-. eauto.
Qed.

Lemma token_None (args : argv) (i : nat) :
  token args i = None <-> entry args i = None.
Proof. unfold token. destruct (entry args i); simpl; split; congruence. Qed.

Lemma strcmp_eqb (a name : string) :
  c_str name = name -> (strcmp a name =? 0) = String.eqb (c_str a) name.
Proof.
  intros Hn. destruct (String.eqb_spec (c_str a) name) as [E|E].
  - apply Z.eqb_eq, strcmp_zero. congruence.
  - apply Z.eqb_neq. rewrite strcmp_zero. congruence.
Qed.

(** The scan of the table, resolved: the first name equal to the first
    token selects the handler at its index; no match leaves the launcher. *)
Lemma dispatch_resolve (funcs : list handler) (launch : handler) (args : argv) (s : string) :
  token args 0 = Some s ->
  dispatch funcs launch args =
    if String.eqb s "cd" then nth 0%nat funcs launch args
    else if String.eqb s "help" then nth 1%nat funcs launch args
    else if String.eqb s "exit" then nth 2%nat funcs launch args
    else if String.eqb s "history" then nth 3%nat funcs launch args
    else launch args.
Proof.
  intros H. apply token_entry in H as (a & Ha & <-).
  unfold dispatch. rewrite Ha.
  unfold lsh_num_builtins, builtin_str. cbn [List.length scan_builtins nth].
  rewrite Ha. cbn [default].
  rewrite !strcmp_eqb by reflexivity. reflexivity.
Qed.

Lemma dispatch_empty (funcs : list handler) (launch : handler) (args : argv) :
  token args 0 = None -> dispatch funcs launch args = mret 1.
Proof. intros H. apply token_None in H. unfold dispatch. now rewrite H. Qed.

Lemma not_builtin_eqb (s : string) :
  ~ In s builtin_str <->
  String.eqb s "cd" = false /\ String.eqb s "help" = false /\
  String.eqb s "exit" = false /\ String.eqb s "history" = false.
Proof.
  unfold builtin_str. simpl. rewrite !String.eqb_neq. intuition congruence.
Qed.

Lemma dispatch_external (funcs : list handler) (launch : handler) (args : argv) :
  is_external args -> dispatch funcs launch args = launch args.
Proof.
  intros (s & Hs & Hn). rewrite (dispatch_resolve _ _ _ _ Hs).
  apply not_builtin_eqb in Hn as (-> & -> & -> & ->). reflexivity.
Qed.

(** ** Wait statuses *)

Lemma land_255_127 (status : Z) : Z.land status 255 = 127 -> Z.land status 127 = 127.
Proof.
  intros H. change 127 with (Z.land 255 127) at 1.
  rewrite Z.land_assoc, H. reflexivity.
Qed.

(** A stop report does not end the wait. *)
Lemma stopped_keeps_waiting (status : Z) :
  WIFSTOPPED status = true -> ends_wait status = false.
Proof.
  unfold WIFSTOPPED, ends_wait, WIFEXITED, WIFSIGNALED, WTERMSIG.
  intros H. apply Z.eqb_eq, land_255_127 in H. rewrite H. reflexivity.
Qed.

Lemma exit_code_ends_wait (code : Z) : ends_wait (W_EXITCODE code 0) = true.
Proof.
  unfold ends_wait, WIFEXITED, WTERMSIG, W_EXITCODE.
  rewrite Z.lor_0_r.
  replace (Z.land (Z.shiftl code 8) 127) with 0; [reflexivity|].
  symmetry. apply Z.bits_inj'. intros i Hi.
  rewrite Z.land_spec, Z.bits_0.
  destruct (Z.ltb_spec i 8).
  - rewrite Z.shiftl_spec_low by lia. reflexivity.
  - replace (Z.testbit 127 i) with false; [apply andb_false_r|].
    symmetry. change 127 with (Z.ones 7). apply Z.ones_spec_high. lia.
Qed.

(** The first status that ends the wait. *)
Lemma first_end (st : nat -> Z) (n : nat) :
  ends_wait (st n) = true ->
  exists m, (m <= n)%nat /\ ends_wait (st m) = true /\
            forall k, (k < m)%nat -> ends_wait (st k) = false.
Proof.
  revert st. induction n as [|n IH]; intros st Hn.
  - exists 0%nat. repeat split; [lia|assumption|intros; lia].
  - destruct (ends_wait (st 0%nat)) eqn:E0.
    + exists 0%nat. repeat split; [lia|assumption|intros; lia].
    + destruct (IH (fun k => st (S k)) Hn) as (m & Hm & Hend & Hbefore).
      exists (S m). repeat split; [lia|assumption|].
      intros [|k] Hk; [assumption|]. apply Hbefore. lia.
Qed.

(** ** Effects of the parts *)

Lemma steady_refl (w : World) : steady w w.
Proof. split; [reflexivity|]. exists []. split; [reflexivity|constructor]. Qed.

Lemma steady_trans (w1 w2 w3 : World) : steady w1 w2 -> steady w2 w3 -> steady w1 w3.
Proof.
  intros [Hc (new & Ht & Hf)] [Hc' (new' & Ht' & Hf')].
  split; [congruence|]. exists (new' ++ new)%list. split.
  - rewrite Ht', Ht. apply app_assoc.
  - unfold fork_dirs in *. rewrite omap_app. apply Forall_app. split; [|assumption].
    now rewrite <- Hc.
Qed.

(** A change that touches neither the directory nor the children. *)
Lemma steady_frame (w w' : World) :
  w_cwd w' = w_cwd w -> w_trace w' = w_trace w -> steady w w'.
Proof.
  intros Hc Ht. split; [assumption|]. exists []. split; [assumption|constructor].
Qed.

Lemma steady_log (e : event) (w : World) :
  match e with EvFork _ dir => dir = w_cwd w | _ => True end ->
  steady w (log_event e w).
Proof.
  intros He. split; [reflexivity|]. exists [e]. split; [reflexivity|].
  destruct e; simpl in *; subst; repeat constructor.
Qed.

Lemma calm_ret {A : Type} (a : A) : calm (mret a : M A).
Proof. intros w. apply steady_refl. Qed.

Lemma calm_bind {A B : Type} (m : M A) (f : A -> M B) :
  calm m -> (forall a, calm (f a)) -> calm (m ≫= f).
Proof.
  intros Hm Hf w. specialize (Hm w). unfold mbind, M_bind.
  destruct (m w) as [a w'|w']; simpl in *; [|assumption].
  eapply steady_trans; [eassumption|apply Hf].
Qed.

Lemma calm_timeout {A : Type} : calm (timeout : M A).
Proof. intros w. apply steady_refl. Qed.

Lemma total_ret {A : Type} (a : A) : total (mret a : M A).
Proof. intros w. now exists a, w. Qed.

Lemma total_bind {A B : Type} (m : M A) (f : A -> M B) :
  total m -> (forall a, total (f a)) -> total (m ≫= f).
Proof.
  intros Hm Hf w. destruct (Hm w) as (a & w' & E).
  rewrite (bind_done _ _ _ _ _ E). apply Hf.
Qed.

Lemma yields_ret {A : Type} (a : A) : yields (mret a : M A) a.
Proof. intros w. now exists w. Qed.

Lemma yields_bind {A B : Type} (m : M A) (f : A -> M B) (b : B) :
  total m -> (forall a, yields (f a) b) -> yields (m ≫= f) b.
Proof.
  intros Hm Hf w. destruct (Hm w) as (a & w' & E).
  rewrite (bind_done _ _ _ _ _ E). apply Hf.
Qed.

Lemma yields_value {A : Type} (m : M A) (a : A) (w : World) :
  yields m a -> value_of (m w) = Some a.
Proof. intros H. destruct (H w) as (w' & ->). reflexivity. Qed.

Section Properties.
Context {os : OS}.

(** *** Library calls *)

Lemma printf_total (s : string) : total (printf s).
Proof. intros w. eexists _, _. reflexivity. Qed.

Lemma printf_calm (s : string) : calm (printf s).
Proof. intros w. now apply steady_frame. Qed.

Lemma eprintf_total (s : string) : total (eprintf s).
Proof. intros w. eexists _, _. reflexivity. Qed.

Lemma eprintf_calm (s : string) : calm (eprintf s).
Proof. intros w. now apply steady_frame. Qed.

Lemma perror_total (s : string) : total (perror s).
Proof. intros w. eexists _, _. reflexivity. Qed.

Lemma perror_calm (s : string) : calm (perror s).
Proof. intros w. now apply steady_frame. Qed.

Lemma fopen_total (name mode : string) : total (fopen name mode).
Proof.
  intros w. unfold fopen.
  destruct (os_fopen_err _ _ _); [eexists _, _; reflexivity|].
  destruct (String.eqb mode "a"); [eexists _, _; reflexivity|].
  destruct (w_files w !! _); eexists _, _; reflexivity.
Qed.

Lemma fopen_calm (name mode : string) : calm (fopen name mode).
Proof.
  intros w. unfold fopen.
  destruct (os_fopen_err _ _ _); [now apply steady_frame|].
  destruct (String.eqb mode "a"); [now apply steady_frame|].
  destruct (w_files w !! _); now apply steady_frame.
Qed.

Lemma fprintf_total (fp : FILE) (s : string) : total (fprintf fp s).
Proof. intros w. eexists _, _. reflexivity. Qed.

Lemma remove_total (name : string) : total (remove name).
Proof.
  intros w. unfold remove.
  destruct (os_remove_err _ _); [eexists _, _; reflexivity|].
  destruct (w_files w !! _); eexists _, _; reflexivity.
Qed.

Lemma remove_calm (name : string) : calm (remove name).
Proof.
  intros w. unfold remove.
  destruct (os_remove_err _ _); [now apply steady_frame|].
  destruct (w_files w !! _); now apply steady_frame.
Qed.

Lemma chdir_total (path : string) : total (chdir path).
Proof. intros w. unfold chdir. destruct (os_chdir _ _); eexists _, _; reflexivity. Qed.

Lemma getcwd_total (size : nat) : total (getcwd size).
Proof.
  intros w. unfold getcwd.
  destruct (os_getcwd_err w); [eexists _, _; reflexivity|].
  destruct (size <=? _)%nat; eexists _, _; reflexivity.
Qed.

Lemma print_lines_total (lines : list string) : total (print_lines lines).
Proof.
  induction lines as [|l lines IH]; [apply total_ret|].
  apply total_bind; [apply printf_total|intros _; exact IH].
Qed.

Lemma print_lines_calm (lines : list string) : calm (print_lines lines).
Proof.
  induction lines as [|l lines IH]; [apply calm_ret|].
  apply calm_bind; [apply printf_calm|intros _; exact IH].
Qed.

Lemma print_names_total (names : list string) : total (print_names names).
Proof.
  induction names as [|l names IH]; [apply total_ret|].
  apply total_bind; [apply printf_total|intros _; exact IH].
Qed.

Lemma print_names_calm (names : list string) : calm (print_names names).
Proof.
  induction names as [|l names IH]; [apply calm_ret|].
  apply calm_bind; [apply printf_calm|intros _; exact IH].
Qed.

(** *** Builtins *)

Lemma lsh_help_yields (args : argv) : yields (lsh_help args) 1.
Proof.
  unfold lsh_help.
  repeat (apply yields_bind; [first [apply printf_total|apply print_names_total]|intros _]).
  apply yields_ret.
Qed.

Lemma lsh_help_calm (args : argv) : calm (lsh_help args).
Proof.
  unfold lsh_help.
  repeat (apply calm_bind; [first [apply printf_calm|apply print_names_calm]|intros _]).
  apply calm_ret.
Qed.

Lemma lsh_cd_yields (args : argv) : yields (lsh_cd args) 1.
Proof.
  unfold lsh_cd. destruct (entry args 1).
  - apply yields_bind; [apply chdir_total|intros r].
    apply yields_bind; [|intros _; apply yields_ret].
    destruct (negb (r =? 0)); [apply perror_total|apply total_ret].
  - apply yields_bind; [apply eprintf_total|intros _; apply yields_ret].
Qed.

Lemma lsh_history_yields (args : argv) : yields (lsh_history args) 1.
Proof.
  unfold lsh_history. destruct (entry args 1) as [a1|].
  - destruct (strcasecmp a1 "-c" =? 0).
    + apply yields_bind; [apply remove_total|intros r].
      apply yields_bind; [|intros _; apply yields_ret].
      destruct (negb (r =? 0)); [apply perror_total|apply printf_total].
    + repeat (apply yields_bind; [apply eprintf_total|intros _]). apply yields_ret.
  - apply yields_bind; [apply printf_total|intros _].
    apply yields_bind; [apply fopen_total|intros [f|]].
    + apply yields_bind; [apply print_lines_total|intros _].
      apply yields_bind; [apply total_ret|intros _]. apply yields_ret.
    + apply yields_bind; [apply eprintf_total|intros _]. apply yields_ret.
Qed.

Lemma lsh_history_calm (args : argv) : calm (lsh_history args).
Proof.
  unfold lsh_history. destruct (entry args 1) as [a1|].
  - destruct (strcasecmp a1 "-c" =? 0).
    + apply calm_bind; [apply remove_calm|intros r].
      apply calm_bind; [|intros _; apply calm_ret].
      destruct (negb (r =? 0)); [apply perror_calm|apply printf_calm].
    + repeat (apply calm_bind; [apply eprintf_calm|intros _]). apply calm_ret.
  - apply calm_bind; [apply printf_calm|intros _].
    apply calm_bind; [apply fopen_calm|intros [f|]].
    + apply calm_bind; [apply print_lines_calm|intros _].
      apply calm_bind; [apply calm_ret|intros _]. apply calm_ret.
    + apply calm_bind; [apply eprintf_calm|intros _]. apply calm_ret.
Qed.

(** *** The launcher *)

Lemma loop_test (status : Z) :
  negb (WIFEXITED status) && negb (WIFSIGNALED status) = negb (ends_wait status).
Proof. unfold ends_wait. now destruct (WIFEXITED status), (WIFSIGNALED status). Qed.

(** While no status ends the wait, the parent is still in the loop, one
    call of [waitpid] per round. *)
Lemma wait_loop_timeout (pid : positive) (st : nat -> Z) (fuel : nat) :
  forall (k : nat) (w : World),
    (forall j, (j < fuel)%nat -> ends_wait (st (k + j)%nat) = false) ->
    wait_loop fuel pid st k w = Timeout (log_waits pid st k fuel w).
Proof.
  induction fuel as [|fuel IH]; intros k w Hwait; [reflexivity|].
  cbn [wait_loop log_waits]. unfold mbind, M_bind, waitpid.
  rewrite loop_test. pose proof (Hwait 0%nat ltac:(lia)) as H0.
  rewrite Nat.add_0_r in H0. rewrite H0. cbn [negb].
  apply IH. intros j Hj. replace (S k + j)%nat with (k + S j)%nat by lia.
  apply Hwait. lia.
Qed.

(** The loop is left at the first status that ends the wait, after one
    call of [waitpid] per status seen. *)
Lemma wait_loop_done (pid : positive) (st : nat -> Z) (n : nat) :
  forall (k fuel : nat) (w : World),
    (forall j, (j < n)%nat -> ends_wait (st (k + j)%nat) = false) ->
    ends_wait (st (k + n)%nat) = true ->
    (n < fuel)%nat ->
    wait_loop fuel pid st k w = Done (st (k + n)%nat) (log_waits pid st k (S n) w).
Proof.
  induction n as [|n IH]; intros k fuel w Hwait Hend Hfuel;
    (destruct fuel as [|fuel]; [lia|]);
    cbn [wait_loop]; unfold mbind, M_bind, waitpid; rewrite loop_test.
  - rewrite Nat.add_0_r in *. rewrite Hend. reflexivity.
  - pose proof (Hwait 0%nat ltac:(lia)) as H0.
    rewrite Nat.add_0_r in H0. rewrite H0. cbn [negb].
    replace (k + S n)%nat with (S k + n)%nat in * by lia.
    rewrite (IH (S k) fuel); [reflexivity| |assumption|lia].
    intros j Hj. replace (S k + j)%nat with (k + S j)%nat by lia. apply Hwait. lia.
Qed.

Lemma wait_loop_calm (fuel : nat) (pid : positive) (st : nat -> Z) (k : nat) :
  calm (wait_loop fuel pid st k).
Proof.
  revert k. induction fuel as [|fuel IH]; intros k; [apply calm_timeout|].
  cbn [wait_loop]. apply calm_bind.
  - intros w. now apply steady_log.
  - intros status. destruct (_ && _); [apply IH|apply calm_ret].
Qed.

Lemma lsh_launch_fork_failed (fuel : nat) (args : argv) (w : World) (e : string) :
  os_fork w = Err e ->
  lsh_launch fuel args w =
    Done 1 (set_stderr (w_stderr w ++ "lsh: " ++ e ++ nl) (set_errno e w)).
Proof. unfold lsh_launch. now intros ->. Qed.

Lemma lsh_launch_forked (fuel : nat) (args : argv) (w w1 : World)
    (pid : positive) (exited : option Z) :
  os_fork w = Ok pid ->
  child_branch pid args (forked pid w) = (exited, w1) ->
  lsh_launch fuel args w =
    (wait_loop fuel pid (child_status (forked pid w) pid exited) 0 ;; mret 1) w1.
Proof. unfold lsh_launch. now intros -> ->. Qed.

Lemma child_branch_steady (pid : positive) (args : argv) (w : World) :
  steady w (snd (child_branch pid args w)).
Proof.
  unfold child_branch. destruct (os_execvp w pid args); cbn [snd].
  - eapply steady_trans; [|now apply steady_frame]. now apply steady_log.
  - now apply steady_log.
Qed.

Lemma lsh_launch_calm (fuel : nat) (args : argv) : calm (lsh_launch fuel args).
Proof.
  intros w. unfold lsh_launch. destruct (os_fork w) as [pid|e].
  - destruct (child_branch _ _ _) as [exited w1] eqn:E.
    eapply steady_trans; [apply (steady_log (EvFork pid (w_cwd w))); reflexivity|].
    eapply steady_trans.
    + pose proof (child_branch_steady pid args (forked pid w)) as H.
      rewrite E in H. exact H.
    + apply (calm_bind (wait_loop fuel pid _ 0) (fun _ => mret 1));
        [apply wait_loop_calm|intros _; apply calm_ret].
  - now apply steady_frame.
Qed.

(** Whenever the launcher comes back, it says continue. *)
Lemma lsh_launch_value (fuel : nat) (args : argv) (w w' : World) (status : Z) :
  lsh_launch fuel args w = Done status w' -> status = 1.
Proof.
  unfold lsh_launch. destruct (os_fork w) as [pid|e].
  - destruct (child_branch _ _ _) as [exited w1]. unfold mbind, M_bind.
    destruct (wait_loop _ _ _ _ _); [|discriminate].
    unfold mret, M_ret. congruence.
  - unfold mbind, M_bind, perror, eprintf, mret, M_ret. congruence.
Qed.

(** With a child whose [n]-th status ends the wait, [n + 1] rounds are
    enough for the launcher to come back. *)
Lemma lsh_launch_returns (fuel n : nat) (args : argv) (w w1 : World)
    (pid : positive) (exited : option Z) :
  os_fork w = Ok pid ->
  child_branch pid args (forked pid w) = (exited, w1) ->
  ends_wait (child_status (forked pid w) pid exited n) = true ->
  (n < fuel)%nat ->
  value_of (lsh_launch fuel args w) = Some 1.
Proof.
  intros Hfork Hchild Hend Hfuel.
  rewrite (lsh_launch_forked _ _ _ _ _ _ Hfork Hchild).
  destruct (first_end _ _ Hend) as (m & Hm & Hendm & Hbefore).
  unfold mbind, M_bind.
  rewrite (wait_loop_done pid _ m 0 fuel w1); [reflexivity|auto|auto|lia].
Qed.

(** A child that cannot load its program exits at once, and the launcher
    is back after the first [waitpid]. *)
Lemma lsh_launch_exec_failed (fuel : nat) (args : argv) (w : World)
    (pid : positive) (e : string) :
  os_fork w = Ok pid ->
  os_execvp (forked pid w) pid args = Some e ->
  (0 < fuel)%nat ->
  value_of (lsh_launch fuel args w) = Some 1.
Proof.
  intros Hfork Hexec Hfuel.
  eapply (lsh_launch_returns fuel 0); [exact Hfork| | |exact Hfuel].
  - unfold child_branch. rewrite Hexec. reflexivity.
  - apply exit_code_ends_wait.
Qed.

(** *** The dispatcher over the shell's own table *)

Lemma yields_done {A : Type} (m : M A) (a b : A) (w w' : World) :
  yields m a -> m w = Done b w' -> b = a.
Proof. intros H E. destruct (H w) as (w1 & E1). congruence. Qed.

(** What [lsh_execute] comes down to, by the first token. *)
Lemma lsh_execute_cases (fuel : nat) (args : argv) :
  token args 0 = None /\ lsh_execute fuel args = mret 1 \/
  token args 0 = Some "cd" /\ lsh_execute fuel args = lsh_cd args \/
  token args 0 = Some "help" /\ lsh_execute fuel args = lsh_help args \/
  token args 0 = Some "exit" /\ lsh_execute fuel args = lsh_exit args \/
  token args 0 = Some "history" /\ lsh_execute fuel args = lsh_history args \/
  is_external args /\ lsh_execute fuel args = lsh_launch fuel args.
Proof.
  unfold lsh_execute. destruct (token args 0) as [s|] eqn:E.
  - rewrite (dispatch_resolve _ _ _ _ E).
    destruct (String.eqb_spec s "cd") as [->|Hcd]; [tauto|].
    destruct (String.eqb_spec s "help") as [->|Hhelp]; [tauto|].
    destruct (String.eqb_spec s "exit") as [->|Hexit]; [tauto|].
    destruct (String.eqb_spec s "history") as [->|Hhist]; [tauto|].
    do 5 right. split; [|reflexivity].
    exists s. split; [exact E|]. simpl. intuition congruence.
  - left. split; [reflexivity|]. now apply dispatch_empty.
Qed.

Lemma external_not_builtin (args : argv) (name : string) :
  is_external args -> token args 0 = Some name -> ~ In name builtin_str.
Proof. intros (s & Hs & Hn) H. congruence. Qed.

(** C1. The dispatcher signals stop exactly when the first token is "exit",
    whatever follows it.  With any other argument vector (none at all, one
    of the builtins cd, help and history, a program to launch) every result
    it comes back with is continue; it does come back for the empty vector
    and for the builtins, for a launch whose [fork] fails, for a launch
    whose child cannot load the program, and for a launch whose child at
    some point reports a status that ends the wait. *)
Theorem lsh_execute_stop_iff_exit (args : argv) (w : World) :
  (token args 0 = Some "exit" ->
     forall fuel, lsh_execute fuel args w = Done 0 w) /\
  (token args 0 <> Some "exit" ->
     (forall fuel status w', lsh_execute fuel args w = Done status w' -> status = 1) /\
     (~ is_external args ->
        forall fuel, value_of (lsh_execute fuel args w) = Some 1) /\
     (forall e, os_fork w = Err e ->
        forall fuel, value_of (lsh_execute fuel args w) = Some 1) /\
     (forall pid e, os_fork w = Ok pid ->
        os_execvp (forked pid w) pid args = Some e ->
        forall fuel, (0 < fuel)%nat -> value_of (lsh_execute fuel args w) = Some 1) /\
     (forall pid exited w1 n,
        os_fork w = Ok pid ->
        child_branch pid args (forked pid w) = (exited, w1) ->
        ends_wait (child_status (forked pid w) pid exited n) = true ->
        forall fuel, (n < fuel)%nat ->
          value_of (lsh_execute fuel args w) = Some 1)).
Proof.
  split.
  - intros Hexit fuel.
    destruct (lsh_execute_cases fuel args)
      as [[H _]|[[H _]|[[H _]|[[_ ->]|[[H _]|[H _]]]]]]; try congruence.
    + reflexivity.
    + exfalso. apply (external_not_builtin _ _ H Hexit). simpl. tauto.
  - intros Hne.
    assert (forall fuel,
              ~ is_external args /\ value_of (lsh_execute fuel args w) = Some 1 \/
              is_external args /\ lsh_execute fuel args w = lsh_launch fuel args w)
      as Hcases.
    { intros fuel.
      destruct (lsh_execute_cases fuel args)
        as [[H ->]|[[H ->]|[[H ->]|[[H _]|[[H ->]|[H ->]]]]]];
        [left|left|left|congruence|left|right; split; [assumption|reflexivity]];
        (split; [intros Hext; apply (external_not_builtin _ _ Hext) in H
                 || (destruct Hext as (? & ? & _); congruence);
                 simpl in H; tauto|]).
      - reflexivity.
      - apply yields_value, lsh_cd_yields.
      - apply yields_value, lsh_help_yields.
      - apply yields_value, lsh_history_yields. }
    repeat split.
    + intros fuel status w' E. destruct (Hcases fuel) as [[_ H]|[_ H]].
      * rewrite E in H. simpl in H. congruence.
      * rewrite H in E. now apply lsh_launch_value in E.
    + intros Hbuiltin fuel. destruct (Hcases fuel) as [[_ H]|[H _]]; tauto.
    + intros e Hfork fuel. destruct (Hcases fuel) as [[_ H]|[_ H]]; [assumption|].
      rewrite H, (lsh_launch_fork_failed _ _ _ _ Hfork). reflexivity.
    + intros pid e Hfork Hexec fuel Hfuel.
      destruct (Hcases fuel) as [[_ H]|[_ H]]; [assumption|].
      rewrite H. eapply lsh_launch_exec_failed; eassumption.
    + intros pid exited w1 n Hfork Hchild Hend fuel Hfuel.
      destruct (Hcases fuel) as [[_ H]|[_ H]]; [assumption|].
      rewrite H. eapply lsh_launch_returns; eassumption.
Qed.

(** C2. Over any table of four handlers and any launcher, a first token
    equal to "cd", "help", "exit" or "history" runs the handler registered
    under that name on the full argument vector, and the result does not
    depend on the launcher; a first token that is none of the four runs the
    launcher on the full vector.  For the shell's own table the launcher is
    what runs exactly when the vector is non-empty and its first token is
    none of the four names. *)
Theorem dispatch_selects_handler
    (h_cd h_help h_exit h_history launch : handler) (args : argv) :
  let table := [h_cd; h_help; h_exit; h_history] in
  (token args 0 = Some "cd" -> dispatch table launch args = h_cd args) /\
  (token args 0 = Some "help" -> dispatch table launch args = h_help args) /\
  (token args 0 = Some "exit" -> dispatch table launch args = h_exit args) /\
  (token args 0 = Some "history" -> dispatch table launch args = h_history args) /\
  ((exists name, token args 0 = Some name /\ In name builtin_str) ->
     forall launch', dispatch table launch' args = dispatch table launch args) /\
  (is_external args -> dispatch table launch args = launch args) /\
  (forall fuel,
     lsh_execute fuel args =
       dispatch [lsh_cd; lsh_help; lsh_exit; lsh_history] (lsh_launch fuel) args) /\
  (forall w,
     (forall launch', dispatch builtin_func launch' args w = launch' args w) <->
     is_external args).
Proof.
  intros table. repeat split.
  - intros H. now rewrite (dispatch_resolve _ _ _ _ H).
  - intros H. now rewrite (dispatch_resolve _ _ _ _ H).
  - intros H. now rewrite (dispatch_resolve _ _ _ _ H).
  - intros H. now rewrite (dispatch_resolve _ _ _ _ H).
  - intros (name & H & Hin) launch'. rewrite !(dispatch_resolve _ _ _ _ H).
    simpl in Hin. destruct Hin as [<-|[<-|[<-|[<-|[]]]]]; reflexivity.
  - apply dispatch_external.
  - intros Hall.
    specialize (Hall (fun _ _ => Done 2 w)). cbv beta in Hall.
    destruct (token args 0) as [name|] eqn:E.
    + rewrite (dispatch_resolve _ _ _ _ E) in Hall.
      exists name. split; [exact E|]. apply not_builtin_eqb.
      destruct (String.eqb name "cd").
      { exfalso. apply (yields_done _ _ _ _ _ (lsh_cd_yields args)) in Hall. lia. }
      destruct (String.eqb name "help").
      { exfalso. apply (yields_done _ _ _ _ _ (lsh_help_yields args)) in Hall. lia. }
      destruct (String.eqb name "exit").
      { exfalso. simpl in Hall. unfold lsh_exit, mret, M_ret in Hall. congruence. }
      destruct (String.eqb name "history").
      { exfalso. apply (yields_done _ _ _ _ _ (lsh_history_yields args)) in Hall. lia. }
      auto.
    + rewrite dispatch_empty in Hall by assumption.
      unfold mret, M_ret in Hall. congruence.
  - intros Hext launch'. now rewrite dispatch_external.
Qed.

(** C3. The vector the tokenizer returns for a line holds the tokens of
    the line's C string as the specification defines them (the maximal
    separator-free substrings in order, none of them empty, and no other
    sequence qualifies) followed by the NULL that ends the vector.  For a
    line of separators only, the empty line among them, the vector is the
    lone NULL, and the dispatcher, over any table and launcher, answers
    continue and leaves the world as it was. *)
Theorem lsh_split_line_tokens (line : string) :
  (exists ts,
     lsh_split_line line = vector_of ts /\
     tokens_of (c_str line) ts /\
     Forall (fun t => t <> EmptyString /\ no_delim t = true) ts /\
     (forall ts', tokens_of (c_str line) ts' -> ts' = ts)) /\
  (all_delim (c_str line) = true ->
     lsh_split_line line = [None] /\
     (forall funcs launch w, dispatch funcs launch (lsh_split_line line) w = Done 1 w) /\
     (forall fuel w, lsh_execute fuel (lsh_split_line line) w = Done 1 w)).
Proof.
  destruct (lsh_split_line_spec line) as (ts & Hsplit & Htok). split.
  - exists ts. repeat split; try assumption.
    + eapply tokens_of_never_empty; eassumption.
    + intros ts' H'. eapply tokens_of_unique; eassumption.
  - intros Hdelim.
    assert (ts = []) as -> by (eapply tokens_of_unique; [eassumption|now apply tokens_none]).
    rewrite Hsplit. repeat split.
Qed.

(** C4. A stop report never ends the wait.  When [fork] fails the launcher
    prints the error and answers continue.  When a child was created and
    status number [n] is the first that shows a normal exit or a death by
    signal, the parent is still inside its wait loop after any [fuel <= n]
    calls of [waitpid], and comes back, answering continue, right after
    call [n + 1]; with a child that never shows such a status it never
    comes back.  Continue is the only answer the launcher ever gives. *)
Theorem lsh_launch_waits_for_termination (args : argv) (w : World) :
  (forall status, WIFSTOPPED status = true -> ends_wait status = false) /\
  (forall e fuel,
     os_fork w = Err e ->
     lsh_launch fuel args w =
       Done 1 (set_stderr (w_stderr w ++ "lsh: " ++ e ++ nl) (set_errno e w))) /\
  (forall pid exited w1,
     os_fork w = Ok pid ->
     child_branch pid args (forked pid w) = (exited, w1) ->
     let st := child_status (forked pid w) pid exited in
     (forall n,
        (forall k, (k < n)%nat -> ends_wait (st k) = false) ->
        ends_wait (st n) = true ->
        (forall fuel, (fuel <= n)%nat ->
           lsh_launch fuel args w = Timeout (log_waits pid st 0 fuel w1)) /\
        (forall fuel, (n < fuel)%nat ->
           lsh_launch fuel args w = Done 1 (log_waits pid st 0 (S n) w1))) /\
     ((forall k, ends_wait (st k) = false) ->
      forall fuel, lsh_launch fuel args w = Timeout (log_waits pid st 0 fuel w1))) /\
  (forall fuel status w', lsh_launch fuel args w = Done status w' -> status = 1).
Proof.
  split; [exact stopped_keeps_waiting|].
  split; [intros e fuel; apply lsh_launch_fork_failed|].
  split; [|intros fuel status w'; apply lsh_launch_value].
  intros pid exited w1 Hfork Hchild st. subst st. split.
  - intros n Hbefore Hend. split; intros fuel Hfuel;
      rewrite (lsh_launch_forked _ _ _ _ _ _ Hfork Hchild); unfold mbind, M_bind.
    + rewrite wait_loop_timeout; [reflexivity|]. intros j Hj. apply Hbefore. simpl. lia.
    + rewrite (wait_loop_done pid _ n 0 fuel w1); [reflexivity| | |lia]; auto.
  - intros Hnever fuel.
    rewrite (lsh_launch_forked _ _ _ _ _ _ Hfork Hchild). unfold mbind, M_bind.
    rewrite wait_loop_timeout; [reflexivity|]. intros j _. apply Hnever.
Qed.

(** *** [history] and [cd] *)

(** The test [strcasecmp(args[1], "-c") == 0]. *)
Lemma clear_flag (a1 : string) :
  strcasecmp a1 "-c" = 0 <-> c_str a1 = "-c" \/ c_str a1 = "-C".
Proof. rewrite strcasecmp_zero. apply lower_dash_c. Qed.

(** C5, as the code has it.  With a modifier, [history] answers continue in
    every case.  The modifier clears the log when it is "-c" with the case
    of the letter ignored, that is "-c" or "-C": the file is removed and
    success is printed, or the error of [remove] is reported and the files
    stay as they were.  Every other modifier is reported as invalid usage
    on standard error and nothing else changes. *)
Theorem lsh_history_modifier (args : argv) (a1 : string) (w : World) :
  entry args 1 = Some a1 ->
  let path := abspath w "history.txt" in
  (c_str a1 = "-c" \/ c_str a1 = "-C" ->
     (forall content,
        os_remove_err path w = None -> w_files w !! path = Some content ->
        lsh_history args w =
          Done 1 (set_stdout (w_stdout w ++ "History cleared successfully." ++ nl)
                    (set_files (delete path (w_files w)) w))) /\
     (os_remove_err path w = None -> w_files w !! path = None ->
        lsh_history args w =
          Done 1 (set_stderr (w_stderr w ++ "Error clearing history: " ++ ENOENT ++ nl)
                    (set_errno ENOENT w))) /\
     (forall e,
        os_remove_err path w = Some e ->
        lsh_history args w =
          Done 1 (set_stderr (w_stderr w ++ "Error clearing history: " ++ e ++ nl)
                    (set_errno e w)))) /\
  (c_str a1 <> "-c" -> c_str a1 <> "-C" ->
     lsh_history args w =
       Done 1 (set_stderr ((w_stderr w ++ "Invalid option: " ++ c_str a1 ++ nl)
                             ++ "Usage: history [-c]" ++ nl) w)).
Proof.
  intros Ha1 path. unfold lsh_history. rewrite Ha1. split.
  - intros Hclear. apply clear_flag in Hclear. rewrite Hclear. cbn [Z.eqb].
    unfold mbind, M_bind, remove. fold path. repeat split.
    + intros content -> ->. reflexivity.
    + intros -> ->. reflexivity.
    + intros e ->. reflexivity.
  - intros H1 H2.
    destruct (Z.eqb_spec (strcasecmp a1 "-c") 0) as [E|_]; [|reflexivity].
    apply clear_flag in E. tauto.
Qed.

(** Both handlers read [args[1]] and nothing else of the vector. *)
Lemma lsh_cd_second (args : argv) (w : World) :
  lsh_cd args w = lsh_cd [None; token args 1] w.
Proof.
  unfold lsh_cd, token. destruct (entry args 1) as [a1|]; cbn; [|reflexivity].
  unfold mbind, M_bind, chdir. now rewrite c_str_idem.
Qed.

Lemma lsh_history_second (args : argv) (w : World) :
  lsh_history args w = lsh_history [None; token args 1] w.
Proof.
  unfold lsh_history, token.
  destruct (entry args 1) as [a1|]; cbn [fmap option_fmap option_map entry nth];
    [|reflexivity].
  now rewrite strcasecmp_c_str, c_str_idem.
Qed.

(** C10. [cd] and [history] behave alike on two argument vectors that carry
    the same string in their second entry (or both end there); the first
    entry and whatever comes after the second have no influence.  So
    [cd a b] is [cd a] and [history -c extra] is [history -c]. *)
Theorem builtins_read_second_entry_only (a b : argv) (w : World) :
  (token a 1 = token b 1 ->
     lsh_cd a w = lsh_cd b w /\ lsh_history a w = lsh_history b w) /\
  (token a 0 = token b 0 -> token a 1 = token b 1 ->
     lsh_cd a w = lsh_cd b w /\ lsh_history a w = lsh_history b w) /\
  (forall name arg extra,
     lsh_cd (vector_of (name :: arg :: extra)) w = lsh_cd (vector_of [name; arg]) w /\
     lsh_history (vector_of (name :: arg :: extra)) w =
       lsh_history (vector_of [name; arg]) w).
Proof.
  assert (token a 1 = token b 1 ->
          lsh_cd a w = lsh_cd b w /\ lsh_history a w = lsh_history b w) as H.
  { intros E. split.
    - rewrite (lsh_cd_second a), (lsh_cd_second b). now rewrite E.
    - rewrite (lsh_history_second a), (lsh_history_second b). now rewrite E. }
  split; [exact H|]. split; [intros _; exact H|].
  intros name arg extra. split; reflexivity.
Qed.

(** *** The working directory *)

(** Nothing but [cd] changes directory. *)
Lemma lsh_execute_calm (fuel : nat) (args : argv) :
  token args 0 <> Some "cd" -> calm (lsh_execute fuel args).
Proof.
  intros Hcd.
  destruct (lsh_execute_cases fuel args)
    as [[_ ->]|[[H _]|[[_ ->]|[[_ ->]|[[_ ->]|[_ ->]]]]]].
  - apply calm_ret.
  - congruence.
  - apply lsh_help_calm.
  - apply calm_ret.
  - apply lsh_history_calm.
  - apply lsh_launch_calm.
Qed.

Lemma session_calm (fuel : nat) (cmds : list argv) :
  Forall (fun args => token args 0 <> Some "cd") cmds -> calm (session fuel cmds).
Proof.
  induction 1 as [|args cmds Hargs _ IH]; [apply calm_ret|].
  cbn [session]. apply calm_bind; [now apply lsh_execute_calm|].
  intros status. destruct (negb (status =? 0)); [exact IH|apply calm_ret].
Qed.

(** A launch that gets its child leaves the child on record, with the
    directory the shell is in at that time. *)
Lemma lsh_launch_forks (fuel : nat) (args : argv) (w : World) (pid : positive) :
  os_fork w = Ok pid ->
  In (EvFork pid (w_cwd w)) (w_trace (world_of (lsh_launch fuel args w))).
Proof.
  intros Hfork. unfold lsh_launch. rewrite Hfork.
  destruct (child_branch _ _ _) as [exited w1] eqn:E.
  assert (In (EvFork pid (w_cwd w)) (w_trace w1)) as Hin.
  { unfold child_branch in E. destruct (os_execvp _ pid args); injection E as _ <-;
      simpl; tauto. }
  pose proof (calm_bind (wait_loop fuel pid (child_status (forked pid w) pid exited) 0)
                (fun _ => mret 1)
                (wait_loop_calm _ _ _ _) (fun _ => calm_ret 1) w1) as [_ (new & -> & _)].
  apply in_or_app. now right.
Qed.

(** C6. Without a second argument [cd] prints its usage error, answers
    continue and changes nothing else, the working directory in particular.
    With a second argument that [chdir] accepts, it answers continue and the
    working directory of the process is the one [chdir] resolved; through
    any later commands other than [cd] it stays that, every child created
    by them inherits it, and a launch that gets a child gets one in that
    directory. *)
Theorem lsh_cd_changes_directory (args : argv) (w : World) :
  (entry args 1 = None ->
     lsh_cd args w =
       Done 1 (set_stderr (w_stderr w ++ "lsh: expected argument to " ++ dq ++ "cd" ++ dq ++ nl) w) /\
     w_cwd (world_of (lsh_cd args w)) = w_cwd w) /\
  (forall a1 dir,
     entry args 1 = Some a1 ->
     os_chdir (c_str a1) w = Ok dir ->
     lsh_cd args w = Done 1 (set_cwd dir w) /\
     (forall fuel cmds,
        Forall (fun c => token c 0 <> Some "cd") cmds ->
        let w' := world_of (session fuel cmds (set_cwd dir w)) in
        w_cwd w' = dir /\
        exists new, w_trace w' = (new ++ w_trace w)%list /\
                    Forall (eq dir) (fork_dirs new)) /\
     (forall fuel args' w1 pid,
        is_external args' -> w_cwd w1 = dir -> os_fork w1 = Ok pid ->
        In (EvFork pid dir) (w_trace (world_of (lsh_execute fuel args' w1))))).
Proof.
  split.
  - intros Hnone. unfold lsh_cd. rewrite Hnone. split; reflexivity.
  - intros a1 dir Ha1 Hchdir. repeat split.
    + unfold lsh_cd. rewrite Ha1. unfold mbind, M_bind, chdir. now rewrite Hchdir.
    + now destruct (session_calm fuel cmds H (set_cwd dir w)) as [-> _].
    + destruct (session_calm fuel cmds H (set_cwd dir w)) as [_ Hnew]. exact Hnew.
    + intros fuel args' w1 pid Hext <- Hfork.
      unfold lsh_execute. rewrite (dispatch_external _ _ _ Hext).
      now apply lsh_launch_forks.
Qed.

(** *** The history log *)

(** [getcwd] touches [errno] at most. *)
Lemma getcwd_result (size : nat) (w : World) :
  exists r w2, getcwd size w = Done r w2 /\
    w_files w2 = w_files w /\ w_stdout w2 = w_stdout w /\ w_stderr w2 = w_stderr w /\
    w_cwd w2 = w_cwd w /\ w_trace w2 = w_trace w /\ w_stdin w2 = w_stdin w.
Proof.
  unfold getcwd. destruct (os_getcwd_err w); [eexists _, _; repeat split|].
  destruct (size <=? _)%nat; eexists _, _; repeat split.
Qed.

(** The log could be opened: what [log_line] does then. *)
Lemma log_line_opened (line : string) (w : World) :
  let path := abspath w "history.txt" in
  let old := default EmptyString (w_files w !! path) in
  os_fopen_err path "a" w = None ->
  exists r w2,
    getcwd 1024 (set_files (<[path := old]> (w_files w)) w) = Done r w2 /\
    let dir := default "unknown" r in
    let w3 := match r with
              | None => set_stderr (w_stderr w ++ "getcwd error: " ++ w_errno w2 ++ nl) w2
              | Some _ => w2
              end in
    log_line line w =
      Done tt (set_files
                 (<[path := old ++ record_of (c_str (os_timestamp w3)) (c_str dir) (c_str line)]>
                    (w_files w3)) w3).
Proof.
  intros path old Hopen.
  destruct (getcwd_result 1024 (set_files (<[path := old]> (w_files w)) w))
    as (r & w2 & Hcwd & Hfiles & _ & Herr & _).
  exists r, w2. split; [exact Hcwd|].
  unfold log_line, mbind, M_bind, fopen. fold path. rewrite Hopen. cbn [String.eqb Ascii.eqb Bool.eqb].
  fold old. rewrite Hcwd.
  destruct r as [dir|]; cbn.
  - unfold fprintf. cbn. rewrite Hfiles. cbn. rewrite lookup_insert_eq. reflexivity.
  - unfold fprintf. cbn. rewrite Hfiles, Herr. cbn. rewrite lookup_insert_eq. reflexivity.
Qed.

Lemma log_line_total (line : string) : total (log_line line).
Proof.
  unfold log_line.
  apply total_bind; [apply fopen_total|intros [f|]; [|apply total_ret]].
  apply total_bind; [apply getcwd_total|intros r].
  apply total_bind.
  { destruct r; [apply total_ret|].
    apply total_bind; [apply perror_total|intros _; apply total_ret]. }
  intros cwd. apply total_bind; [intros w; eexists _, _; reflexivity|intros ts].
  apply total_bind; [apply fprintf_total|intros _; apply total_ret].
Qed.

(** A round reads a line, logs it when it is not empty, and dispatches its
    tokens. *)
Lemma lsh_round_unfold (fuel : nat) (w : World) (line unread : string) :
  read_chars (w_stdin w) = (line, unread) ->
  let w1 := set_stdin unread (set_stdout (w_stdout w ++ "> ") w) in
  lsh_round fuel w =
    if Ascii.eqb (peek line) NUL
    then lsh_execute fuel (lsh_split_line line) w1
    else match log_line line w1 with
         | Done _ w2 => lsh_execute fuel (lsh_split_line line) w2
         | Timeout w2 => Timeout w2
         end.
Proof.
  intros Hread w1. unfold lsh_round, mbind, M_bind, printf, lsh_read_line.
  cbn. rewrite Hread. fold w1. destruct (Ascii.eqb (peek line) NUL); reflexivity.
Qed.

(** C7, as the code has it.  When the log cannot be opened the line is not
    logged and nothing is printed.  When the log is open and the lookup of
    the working directory fails, the diagnostic "getcwd error: <reason>" is
    written to standard error and the record is appended with "unknown" in
    the place of the directory.  In either case logging comes back, and the
    round goes on to dispatch the line. *)
Theorem log_line_best_effort (line : string) (w : World) :
  let path := abspath w "history.txt" in
  let old := default EmptyString (w_files w !! path) in
  (forall e,
     os_fopen_err path "a" w = Some e -> log_line line w = Done tt (set_errno e w)) /\
  (forall w2,
     os_fopen_err path "a" w = None ->
     getcwd 1024 (set_files (<[path := old]> (w_files w)) w) = Done None w2 ->
     exists ts w',
       log_line line w = Done tt w' /\
       w_stderr w' = w_stderr w ++ "getcwd error: " ++ w_errno w2 ++ nl /\
       w_files w' !! path = Some (old ++ record_of ts "unknown" (c_str line)) /\
       w_stdout w' = w_stdout w /\ w_cwd w' = w_cwd w) /\
  total (log_line line) /\
  (forall fuel, exists w',
     lsh_round fuel w =
       lsh_execute fuel (lsh_split_line (fst (read_chars (w_stdin w)))) w').
Proof.
  intros path old. repeat split.
  - intros e Hopen. unfold log_line, mbind, M_bind, fopen. fold path. now rewrite Hopen.
  - intros w2 Hopen Hcwd.
    destruct (log_line_opened line w Hopen) as (r & w2' & Hcwd' & Hlog).
    fold path old in Hcwd'. rewrite Hcwd in Hcwd'. injection Hcwd' as <- <-.
    cbn in Hlog. eexists _, _. split; [exact Hlog|].
    destruct (getcwd_result 1024 (set_files (<[path := old]> (w_files w)) w))
      as (r' & w2' & Hcwd' & Hfiles & Hout & Herr & Hdir & _).
    rewrite Hcwd in Hcwd'. injection Hcwd' as <- <-.
    cbn. rewrite lookup_insert_eq. repeat split; assumption.
  - apply log_line_total.
  - intros fuel. destruct (read_chars (w_stdin w)) as [line' unread] eqn:Hread.
    rewrite (lsh_round_unfold fuel w line' unread Hread). cbn [fst].
    destruct (Ascii.eqb (peek line') NUL); [eexists; reflexivity|].
    destruct (log_line_total line' (set_stdin unread (set_stdout (w_stdout w ++ "> ") w)))
      as (u & w2 & ->).
    eexists; reflexivity.
Qed.

Lemma c_str_all_delim (s : string) : all_delim s = true -> c_str s = s.
Proof.
  unfold all_delim. induction s as [|c s IH]; [reflexivity|]. simpl.
  intros H. apply andb_true_iff in H as [Hc Hs].
  destruct (Ascii.eqb_spec c NUL) as [->|_]; [discriminate|].
  now rewrite IH.
Qed.

Lemma peek_all_delim (s : string) :
  s <> EmptyString -> all_delim s = true -> Ascii.eqb (peek s) NUL = false.
Proof.
  destruct s as [|c s]; [congruence|]. unfold all_delim. simpl.
  intros _ H. apply andb_true_iff in H as [Hc _].
  destruct (Ascii.eqb_spec c NUL) as [->|_]; [discriminate|reflexivity].
Qed.

Lemma lsh_split_line_blank (line : string) :
  all_delim (c_str line) = true -> lsh_split_line line = [None].
Proof.
  intros H. destruct (lsh_split_line_spec line) as (ts & -> & Htok).
  now rewrite (tokens_of_unique _ _ _ Htok (tokens_none _ H)).
Qed.

(** C9. Whether a record is written depends on the first byte of the line
    alone.  An empty line goes to the dispatcher with the files untouched.
    A line with a first byte, once the log is open, is appended to it as a
    record before it is dispatched.  So a line made of separators only is
    logged verbatim although the tokenizer finds nothing in it and the
    round ends with continue and no child. *)
Theorem blank_lines_are_logged (fuel : nat) (line unread : string) (w : World) :
  read_chars (w_stdin w) = (line, unread) ->
  let w1 := set_stdin unread (set_stdout (w_stdout w ++ "> ") w) in
  let path := abspath w "history.txt" in
  let old := default EmptyString (w_files w !! path) in
  (peek line = NUL ->
     lsh_round fuel w = lsh_execute fuel (lsh_split_line line) w1) /\
  (peek line <> NUL -> os_fopen_err path "a" w1 = None ->
     exists ts dir w2,
       lsh_round fuel w = lsh_execute fuel (lsh_split_line line) w2 /\
       w_files w2 !! path = Some (old ++ record_of ts dir (c_str line))) /\
  (line <> EmptyString -> all_delim line = true -> os_fopen_err path "a" w1 = None ->
     lsh_split_line line = [None] /\
     exists ts dir w2,
       lsh_round fuel w = Done 1 w2 /\
       w_files w2 !! path = Some (old ++ record_of ts dir line) /\
       w_trace w2 = w_trace w).
Proof.
  intros Hread w1 path old.
  pose proof (lsh_round_unfold fuel w line unread Hread) as Hround. fold w1 in Hround.
  assert (os_fopen_err path "a" w1 = None ->
          exists ts dir w2,
            log_line line w1 = Done tt w2 /\
            w_files w2 !! path = Some (old ++ record_of ts dir (c_str line)) /\
            w_trace w2 = w_trace w) as Hlog.
  { intros Hopen.
    destruct (log_line_opened line w1 Hopen) as (r & w2 & Hcwd & Hlog).
    destruct (getcwd_result 1024
                (set_files (<[abspath w1 "history.txt" :=
                               default EmptyString (w_files w1 !! abspath w1 "history.txt")]>
                              (w_files w1)) w1))
      as (r' & w2' & Hcwd' & Hfiles & _ & _ & _ & Htrace & _).
    rewrite Hcwd in Hcwd'. injection Hcwd' as <- <-.
    destruct r as [d|]; cbn in Hlog; eexists _, _, _; (split; [exact Hlog|]);
      cbn; rewrite lookup_insert_eq; (split; [reflexivity|exact Htrace]). }
  split; [|split].
  - intros Hempty. rewrite Hround. apply Ascii.eqb_eq in Hempty. now rewrite Hempty.
  - intros Hfirst Hopen. destruct (Hlog Hopen) as (ts & dir & w2 & Hw2 & Hfile & _).
    exists ts, dir, w2. rewrite Hround. apply eqb_NUL_false in Hfirst.
    rewrite Hfirst, Hw2. auto.
  - intros Hline Hdelim Hopen.
    assert (lsh_split_line line = [None]) as Hsplit
      by (apply lsh_split_line_blank; now rewrite c_str_all_delim).
    split; [exact Hsplit|].
    destruct (Hlog Hopen) as (ts & dir & w2 & Hw2 & Hfile & Htrace).
    exists ts, dir, w2. rewrite Hround, (peek_all_delim line), Hw2, Hsplit by assumption.
    rewrite c_str_all_delim in Hfile by assumption. auto.
Qed.

(** *** End of input *)

Lemma read_chars_eof (s : string) :
  no_newline s = true -> read_chars s = (s, EmptyString).
Proof.
  unfold no_newline. induction s as [|c s IH]; [reflexivity|]. simpl.
  intros H. apply andb_true_iff in H as [Hc Hs].
  apply negb_true_iff in Hc. now rewrite Hc, IH.
Qed.

Lemma read_chars_newline (s unread : string) :
  no_newline s = true -> read_chars (s ++ String LF unread) = (s, unread).
Proof.
  unfold no_newline. induction s as [|c s IH]; [reflexivity|].
  rewrite append_cons. simpl.
  intros H. apply andb_true_iff in H as [Hc Hs].
  apply negb_true_iff in Hc. now rewrite Hc, IH.
Qed.

Lemma lsh_execute_stop (fuel : nat) (args : argv) (w w' : World) :
  lsh_execute fuel args w = Done 0 w' -> token args 0 = Some "exit".
Proof.
  intros E.
  destruct (lsh_execute_cases fuel args)
    as [[_ H]|[[_ H]|[[_ H]|[[H _]|[[_ H]|[_ H]]]]]]; try assumption;
    rewrite H in E; exfalso.
  - discriminate.
  - apply (yields_done _ _ _ _ _ (lsh_cd_yields args)) in E. lia.
  - apply (yields_done _ _ _ _ _ (lsh_help_yields args)) in E. lia.
  - apply (yields_done _ _ _ _ _ (lsh_history_yields args)) in E. lia.
  - apply lsh_launch_value in E. lia.
Qed.

Lemma lsh_loop_at_eof (n : nat) :
  forall w, w_stdin w = EmptyString ->
    lsh_loop n w = Timeout (set_stdout (w_stdout w ++ prompts n) w).
Proof.
  induction n as [|n IH]; intros [input out err dir files errno trace] Hin;
    simpl in Hin; subst input.
  - unfold set_stdout. cbn. now rewrite append_empty_r.
  - cbn [lsh_loop]. unfold mbind at 1, M_bind at 1.
    rewrite (lsh_round_unfold n (mkWorld EmptyString out err dir files errno trace)
               EmptyString EmptyString eq_refl).
    change (Ascii.eqb (peek EmptyString) NUL) with true. cbv iota.
    change (lsh_split_line EmptyString) with ([None] : argv).
    change (lsh_execute n [None]) with (mret 1 : M Z).
    unfold mret, M_ret. cbn [Z.eqb negb].
    rewrite IH by reflexivity. unfold set_stdout, set_stdin. cbn.
    now rewrite append_assoc.
Qed.

(** C8. At end of input the line reader hands back what it has read so
    far, the same line it hands back when a newline follows those bytes.
    Once the input is used up the loop never ends: after any number of
    rounds it is still running and has written that many prompts.  A loop
    that did end, ended with a round whose line has "exit" as first token. *)
Theorem end_of_input_reads_as_newline :
  (forall s unread w,
     no_newline s = true ->
     (w_stdin w = s -> lsh_read_line w = Done s (set_stdin EmptyString w)) /\
     (w_stdin w = s ++ String LF unread -> lsh_read_line w = Done s (set_stdin unread w))) /\
  (forall n w,
     w_stdin w = EmptyString ->
     lsh_loop n w = Timeout (set_stdout (w_stdout w ++ prompts n) w)) /\
  (forall fuel w w',
     lsh_loop fuel w = Done tt w' ->
     exists fuel' w1,
       lsh_round fuel' w1 = Done 0 w' /\
       token (lsh_split_line (fst (read_chars (w_stdin w1)))) 0 = Some "exit").
Proof.
  repeat split.
  - intros Hin. unfold lsh_read_line. rewrite Hin, read_chars_eof by assumption. reflexivity.
  - intros Hin. unfold lsh_read_line. rewrite Hin, read_chars_newline by assumption. reflexivity.
  - intros n w. apply lsh_loop_at_eof.
  - intros fuel. induction fuel as [|fuel IH]; intros w w' Hloop; [discriminate|].
    cbn [lsh_loop] in Hloop. unfold mbind, M_bind in Hloop.
    destruct (lsh_round fuel w) as [status w1|w1] eqn:Hround; [|discriminate].
    destruct (Z.eqb_spec status 0) as [->|Hne]; cbn [negb] in Hloop.
    + injection Hloop as <-. exists fuel, w. split; [exact Hround|].
      destruct (read_chars (w_stdin w)) as [line unread] eqn:Hread.
      rewrite (lsh_round_unfold fuel w line unread Hread) in Hround. cbn [fst].
      destruct (Ascii.eqb (peek line) NUL); [now apply lsh_execute_stop in Hround|].
      destruct (log_line line _) as [u w2|w2]; [|discriminate].
      now apply lsh_execute_stop in Hround.
    + now apply IH in Hloop.
Qed.

End Properties.

(** * The sample system at work *)

Example split_ls_line :
  lsh_split_line ("  ls" ++ String TAB "-l  /tmp ")
    = [Some "ls"; Some "-l"; Some "/tmp"; None].
Proof. reflexivity. Qed.

Example split_stops_at_NUL :
  lsh_split_line ("ls " ++ String NUL "-l") = [Some "ls"; None].
Proof. reflexivity. Qed.

Example strcmp_exit_prefix : strcmp "exi" "exit" = -116 /\ strcmp "exit" "exit" = 0.
Proof. split; reflexivity. Qed.

(** A session of three lines: the child of [ls] is created in the
    directory [cd] moved to, each directory gets the records of the lines
    read in it, and [exit] ends the loop. *)
Example session_cd_ls_exit :
  let w := Sample.world ("cd /tmp" ++ nl ++ "ls" ++ nl ++ "exit" ++ nl) "/home" None in
  let r := lsh_loop (os := Sample.os) 5 w in
  value_of r = Some tt /\
  w_cwd (world_of r) = "/tmp" /\
  fork_dirs (w_trace (world_of r)) = ["/tmp"] /\
  w_stdout (world_of r) = prompts 3 /\
  w_files (world_of r) !! "/home/history.txt"
    = Some (record_of "2024-05-17 09:30:00" "/home" "cd /tmp") /\
  w_files (world_of r) !! "/tmp/history.txt"
    = Some (record_of "2024-05-17 09:30:00" "/tmp" "ls"
            ++ record_of "2024-05-17 09:30:00" "/tmp" "exit").
Proof. repeat split; vm_compute; reflexivity. Qed.

Lemma lsh_execute_stop_iff_exit_witness :
  lsh_execute (os := Sample.os) 0 [Some "exit"; Some "now"; None] Sample.home
    = Done 0 Sample.home /\
  value_of (lsh_execute (os := Sample.os) 3 Sample.ls Sample.home) = Some 1.
Proof.
  split.
  - apply (proj1 (lsh_execute_stop_iff_exit (os := Sample.os)
                    [Some "exit"; Some "now"; None] Sample.home)).
    reflexivity.
  - assert (token Sample.ls 0 <> Some "exit") as Hne by discriminate.
    destruct (proj2 (lsh_execute_stop_iff_exit (os := Sample.os) Sample.ls Sample.home) Hne)
      as (_ & _ & _ & _ & Hchild).
    eapply (Hchild 1%positive None _ 2%nat); [reflexivity|reflexivity|reflexivity|lia].
Defined.

Lemma dispatch_selects_handler_witness :
  dispatch [lsh_cd (os := Sample.os); lsh_help; lsh_exit; lsh_history (os := Sample.os)]
    (lsh_launch (os := Sample.os) 0) [Some "history"; Some "-c"; None]
  = lsh_history (os := Sample.os) [Some "history"; Some "-c"; None].
Proof.
  apply (proj1 (proj2 (proj2 (proj2
           (dispatch_selects_handler (os := Sample.os)
              lsh_cd lsh_help lsh_exit lsh_history (lsh_launch (os := Sample.os) 0)
              [Some "history"; Some "-c"; None]))))).
  reflexivity.
Defined.

Lemma lsh_split_line_tokens_witness :
  lsh_split_line (String SPC (String TAB (String BEL EmptyString))) = [None].
Proof.
  apply (proj2 (lsh_split_line_tokens (os := Sample.os)
                  (String SPC (String TAB (String BEL EmptyString))))).
  reflexivity.
Defined.

Lemma lsh_launch_waits_for_termination_witness :
  value_of (lsh_launch (os := Sample.os) 2 Sample.ls Sample.home) = None /\
  value_of (lsh_launch (os := Sample.os) 3 Sample.ls Sample.home) = Some 1.
Proof.
  destruct (lsh_launch_waits_for_termination (os := Sample.os) Sample.ls Sample.home)
    as (_ & _ & Hparent & _).
  edestruct (Hparent 1%positive None) as [Hfirst _]; [reflexivity|reflexivity|].
  destruct (Hfirst 2%nat) as [Hwait Hback].
  - intros [|[|k]] Hk; [reflexivity|reflexivity|lia].
  - reflexivity.
  - split.
    + rewrite (Hwait 2%nat) by lia. reflexivity.
    + rewrite (Hback 3%nat) by lia. reflexivity.
Defined.

Lemma lsh_history_modifier_witness :
  lsh_history (os := Sample.os) [Some "history"; Some "-C"; None] Sample.home =
    Done 1 (set_stdout ("History cleared successfully." ++ nl)
              (set_files (delete "/home/history.txt" (w_files Sample.home)) Sample.home)).
Proof.
  apply (proj1 (proj1 (lsh_history_modifier (os := Sample.os)
                         [Some "history"; Some "-C"; None] "-C" Sample.home eq_refl)
                      (or_intror eq_refl))
               ("[2024-05-16 18:02:11] [/home] ls" ++ nl));
    reflexivity.
Defined.

Lemma lsh_cd_changes_directory_witness :
  lsh_cd (os := Sample.os) [Some "cd"; Some "/tmp"; None] Sample.home =
    Done 1 (set_cwd "/tmp" Sample.home).
Proof.
  apply (proj2 (lsh_cd_changes_directory (os := Sample.os)
                  [Some "cd"; Some "/tmp"; None] Sample.home) "/tmp" "/tmp");
    reflexivity.
Defined.

Lemma log_line_best_effort_witness :
  exists ts w',
    log_line (os := Sample.os) "exit" Sample.locked = Done tt w' /\
    w_stderr w' = "getcwd error: " ++ Sample.EACCES ++ nl /\
    w_files w' !! "/locked/in/history.txt" = Some (record_of ts "unknown" "exit") /\
    w_stdout w' = EmptyString /\ w_cwd w' = "/locked/in".
Proof.
  apply (proj1 (proj2 (log_line_best_effort (os := Sample.os) "exit" Sample.locked))
               (set_errno Sample.EACCES
                  (set_files {[ "/locked/in/history.txt" := EmptyString ]} Sample.locked)));
    reflexivity.
Defined.

Lemma end_of_input_reads_as_newline_witness :
  lsh_loop (os := Sample.os) 3 Sample.home =
    Timeout (set_stdout (prompts 3) Sample.home).
Proof.
  apply (proj1 (proj2 (end_of_input_reads_as_newline (os := Sample.os)))).
  reflexivity.
Defined.

Lemma blank_lines_are_logged_witness :
  lsh_split_line "  " = [None] /\
  exists ts dir w2,
    lsh_round (os := Sample.os) 0 Sample.blank = Done 1 w2 /\
    w_files w2 !! "/home/history.txt" = Some (record_of ts dir "  ") /\
    w_trace w2 = [].
Proof.
  apply (proj2 (proj2 (blank_lines_are_logged (os := Sample.os)
                         0 "  " "exit" Sample.blank eq_refl)));
    [discriminate|reflexivity|reflexivity].
Defined.

Lemma builtins_read_second_entry_only_witness :
  lsh_cd (os := Sample.os) [Some "cd"; Some "/tmp"; Some "extra"; None] Sample.home =
    lsh_cd (os := Sample.os) [Some "chdir"; Some "/tmp"; None] Sample.home /\
  lsh_history (os := Sample.os) [Some "cd"; Some "/tmp"; Some "extra"; None] Sample.home =
    lsh_history (os := Sample.os) [Some "chdir"; Some "/tmp"; None] Sample.home.
Proof.
  apply (proj1 (builtins_read_second_entry_only (os := Sample.os)
                  [Some "cd"; Some "/tmp"; Some "extra"; None]
                  [Some "chdir"; Some "/tmp"; None] Sample.home)).
  reflexivity.
Defined.

(** C5 as first stated (only "-c" clears the log, every other modifier is
    an invalid-usage error) fails on the modifier "-C": the log is removed,
    success is printed, and nothing goes to standard error. *)
Lemma history_upper_case_flag_clears_log :
  token [Some "history"; Some "-C"; None] 1 = Some "-C" /\
  String.eqb "-C" "-c" = false /\
  w_files Sample.home !! "/home/history.txt"
    = Some ("[2024-05-16 18:02:11] [/home] ls" ++ nl) /\
  value_of (lsh_history (os := Sample.os) [Some "history"; Some "-C"; None] Sample.home)
    = Some 1 /\
  w_files (world_of (lsh_history (os := Sample.os)
                       [Some "history"; Some "-C"; None] Sample.home))
    !! "/home/history.txt" = None /\
  w_stdout (world_of (lsh_history (os := Sample.os)
                        [Some "history"; Some "-C"; None] Sample.home))
    = "History cleared successfully." ++ nl /\
  w_stderr (world_of (lsh_history (os := Sample.os)
                        [Some "history"; Some "-C"; None] Sample.home))
    = EmptyString.
Proof. repeat split; vm_compute; reflexivity. Qed.

(** C7 as first stated (a failed lookup of the working directory leaves no
    diagnostic) fails in the deep directory, whose path of 1024 bytes does
    not fit the buffer: the round that logs the line [exit] writes
    "getcwd error: ..." to standard error, which was empty, and the record
    carries "unknown". *)
Lemma getcwd_failure_is_reported :
  String.length (w_cwd Sample.deep) = 1024%nat /\
  w_stderr Sample.deep = EmptyString /\
  value_of (lsh_loop (os := Sample.os) 1 Sample.deep) = Some tt /\
  w_stderr (world_of (lsh_loop (os := Sample.os) 1 Sample.deep))
    = "getcwd error: Numerical result out of range" ++ nl /\
  w_files (world_of (lsh_loop (os := Sample.os) 1 Sample.deep))
    !! (Sample.deep_dir ++ "/history.txt")
    = Some (record_of "2024-05-17 09:30:00" "unknown" "exit").
Proof. repeat split; vm_compute; reflexivity. Qed.

(** * Further properties of the parts *)

(** ** Tokenizer and line reader *)

Lemma all_chars_app (P : ascii -> bool) (a b : string) :
  all_chars P (a ++ b) = all_chars P a && all_chars P b.
Proof.
  induction a as [|c a IH]; [reflexivity|].
  rewrite append_cons. simpl. now rewrite IH, andb_assoc.
Qed.

Lemma c_str_no_nul (s : string) : no_nul s = true -> c_str s = s.
Proof.
  unfold no_nul. induction s as [|c s IH]; [reflexivity|]. simpl.
  intros H. apply andb_true_iff in H as [Hc Hs].
  apply negb_true_iff in Hc. now rewrite Hc, IH.
Qed.

Lemma no_nul_c_str (s : string) : no_nul (c_str s) = true.
Proof.
  unfold no_nul. induction s as [|c s IH]; [reflexivity|]. simpl.
  destruct (Ascii.eqb c NUL) eqn:E; [reflexivity|]. simpl. now rewrite E.
Qed.

Lemma c_str_app (a b : string) :
  no_nul a = true -> c_str (a ++ b) = a ++ c_str b.
Proof.
  unfold no_nul. induction a as [|c a IH]; [reflexivity|].
  rewrite !append_cons. simpl. intros H. apply andb_true_iff in H as [Hc Ha].
  apply negb_true_iff in Hc. now rewrite Hc, IH.
Qed.

Lemma all_delim_no_nul (s : string) : all_delim s = true -> no_nul s = true.
Proof.
  unfold all_delim, no_nul. induction s as [|c s IH]; [reflexivity|]. simpl.
  intros H. apply andb_true_iff in H as [Hc Hs]. rewrite IH by assumption.
  destruct (Ascii.eqb_spec c NUL) as [->|_]; [discriminate|reflexivity].
Qed.

(** The vector of a line is fixed by any token sequence that meets the
    specification. *)
Lemma lsh_split_line_of_tokens (line : string) (ts : list string) :
  tokens_of (c_str line) ts -> lsh_split_line line = vector_of ts.
Proof.
  intros H. destruct (lsh_split_line_spec line) as (ts' & -> & H').
  now rewrite (tokens_of_unique _ _ _ H' H).
Qed.

Lemma tokens_of_delims (d s : string) (ts : list string) :
  all_delim d = true -> tokens_of s ts -> tokens_of (d ++ s) ts.
Proof.
  unfold all_delim. induction d as [|c d IH]; [intros _ H; exact H|].
  simpl. intros Hd H. apply andb_true_iff in Hd as [Hc Hd].
  rewrite append_cons. apply tokens_of_delim; auto.
Qed.

Lemma at_boundary_app (s s' : string) :
  at_boundary s = true -> at_boundary s' = true -> at_boundary (s ++ s') = true.
Proof. destruct s; [intros _ H; exact H|intros H _; exact H]. Qed.

(** Tokens of a line followed by a rest that starts at a boundary: those of
    the line, then those of the rest. *)
Lemma tokens_of_app (s s' : string) (ts ts' : list string) :
  tokens_of s ts -> at_boundary s' = true -> tokens_of s' ts' ->
  tokens_of (s ++ s') (ts ++ ts')%list.
Proof.
  intros H Hb H'. induction H as [s Hs|d t s ts Hd Ht Hn Hbs H IH].
  - now apply tokens_of_delims.
  - rewrite !append_assoc. cbn [app]. apply tokens_next; auto.
    destruct s; [exact Hb|exact Hbs].
Qed.

Lemma all_delim_at_boundary (d : string) : all_delim d = true -> at_boundary d = true.
Proof.
  destruct d as [|c d]; [reflexivity|]. unfold all_delim. simpl.
  intros H. now apply andb_true_iff in H as [Hc _].
Qed.

Lemma tokens_of_no_nul (s : string) (ts : list string) :
  tokens_of s ts -> no_nul s = true -> Forall (fun t => no_nul t = true) ts.
Proof.
  unfold no_nul. induction 1 as [s Hs|d t s ts Hd Ht Hn Hb H IH]; [constructor|].
  rewrite !all_chars_app. intros Hall.
  apply andb_true_iff in Hall as [_ Hall]. apply andb_true_iff in Hall as [Hnt Hns].
  constructor; auto.
Qed.

(** X1. A line handed to the tokenizer can be wrapped in separators, in
    front and behind, without any change to the vector it returns. *)
Theorem lsh_split_line_ignores_outer_separators (d line d' : string) :
  all_delim d = true -> all_delim d' = true ->
  lsh_split_line (d ++ line ++ d') = lsh_split_line line.
Proof.
  intros Hd Hd'. destruct (lsh_split_line_spec line) as (ts & Hline & Htok).
  rewrite Hline. apply lsh_split_line_of_tokens.
  rewrite (c_str_app d) by now apply all_delim_no_nul.
  apply tokens_of_delims; [assumption|].
  destruct (no_nul line) eqn:Hnul.
  - rewrite (c_str_app line), (c_str_no_nul d') by (assumption || now apply all_delim_no_nul).
    rewrite <- (app_nil_r ts). rewrite (c_str_no_nul line) in Htok by assumption.
    apply tokens_of_app; [assumption|now apply all_delim_at_boundary|now apply tokens_none].
  - replace (c_str (line ++ d')) with (c_str line); [assumption|].
    clear -Hnul. unfold no_nul in Hnul.
    induction line as [|c line IH]; [discriminate|]. rewrite append_cons. simpl in *.
    destruct (Ascii.eqb c NUL); [reflexivity|]. simpl in Hnul. now rewrite IH.
Qed.

(** X2. Two lines put one after the other with a separator in between
    tokenize to the tokens of the first followed by the tokens of the second
    (the first line being free of NUL bytes, so that it does not end the C
    string early). *)
Theorem lsh_split_line_concat (a b : string) (c : ascii) (ta tb : list string) :
  no_nul a = true -> is_delim c = true ->
  lsh_split_line a = vector_of ta ->
  lsh_split_line b = vector_of tb ->
  lsh_split_line (a ++ String c b) = vector_of (ta ++ tb).
Proof.
  intros Ha Hc Hta Htb.
  destruct (lsh_split_line_spec a) as (ta' & Ea & Htoka).
  destruct (lsh_split_line_spec b) as (tb' & Eb & Htokb).
  assert (forall x y, vector_of x = vector_of y -> x = y) as Hinj.
  { unfold vector_of. intros x y E. apply app_inv_tail in E.
    revert y E. induction x as [|t x IH]; intros [|u y] E; try discriminate; [reflexivity|].
    injection E as -> E. f_equal. now apply IH. }
  rewrite Hta in Ea. apply Hinj in Ea. subst ta'.
  rewrite Htb in Eb. apply Hinj in Eb. subst tb'.
  apply lsh_split_line_of_tokens. rewrite c_str_app by assumption.
  rewrite c_str_no_nul in Htoka by assumption.
  cbn [c_str]. destruct (Ascii.eqb_spec c NUL) as [->|_]; [discriminate|].
  apply tokens_of_app; [assumption|exact Hc|]. now apply tokens_of_delim.
Qed.

Lemma tokens_of_join (ts : list string) :
  Forall (fun t => t <> EmptyString /\ no_delim t = true) ts ->
  tokens_of (join ts) ts.
Proof.
  induction 1 as [|t ts [Ht Hn] Hts IH]; [now apply tokens_none|].
  cbn [join]. destruct ts as [|u ts].
  - rewrite <- (append_empty_r t) at 1.
    apply (tokens_next EmptyString t EmptyString []); auto; now apply tokens_none.
  - apply (tokens_next EmptyString t (String SPC (join (u :: ts))) (u :: ts)); auto.
    now apply tokens_of_delim.
Qed.

Lemma no_nul_join (ts : list string) :
  Forall (fun t => no_nul t = true) ts -> no_nul (join ts) = true.
Proof.
  induction 1 as [|t ts Ht Hts IH]; [reflexivity|].
  cbn [join]. destruct ts as [|u ts]; [assumption|].
  unfold no_nul in *. rewrite all_chars_app, Ht. simpl. exact IH.
Qed.

(** X3. Arguments that are non-empty and free of separators and NUL bytes,
    written on one line with blanks between them, come back from the
    tokenizer as they were, in order, closed by NULL. *)
Theorem lsh_split_line_join (ts : list string) :
  Forall (fun t => t <> EmptyString /\ no_delim t = true) ts ->
  Forall (fun t => no_nul t = true) ts ->
  lsh_split_line (join ts) = vector_of ts.
Proof.
  intros Htok Hnul. apply lsh_split_line_of_tokens.
  rewrite c_str_no_nul by now apply no_nul_join. now apply tokens_of_join.
Qed.

Lemma length_vector_of (ts : list string) :
  List.length (vector_of ts) = S (List.length ts).
Proof. unfold vector_of. rewrite length_app, length_fmap. simpl. lia. Qed.

Lemma nth_error_vector_of (ts : list string) (i : nat) :
  nth_error (vector_of ts) i =
    match nth_error ts i with
    | Some t => Some (Some t)
    | None => if (i =? List.length ts)%nat then Some None else None
    end.
Proof.
  unfold vector_of. revert i. induction ts as [|t ts IH]; intros [|i]; try reflexivity.
  - now destruct i.
  - simpl. apply IH.
Qed.

(** X4. The vector the tokenizer returns has one NULL, in its last slot;
    every slot before it holds a non-empty string free of separators and of
    NUL bytes.  So whenever [args[0]] is not NULL, index 1 lies inside the
    vector: the read of [args[1]] by [cd] and [history] stays in bounds. *)
Theorem lsh_split_line_vector_shape (line : string) :
  exists n,
    List.length (lsh_split_line line) = S n /\
    nth_error (lsh_split_line line) n = Some None /\
    (forall i, (i < n)%nat ->
       exists t, nth_error (lsh_split_line line) i = Some (Some t) /\
                 t <> EmptyString /\ no_delim t = true /\ no_nul t = true) /\
    (entry (lsh_split_line line) 0 <> None ->
       nth_error (lsh_split_line line) 1 <> None).
Proof.
  destruct (lsh_split_line_spec line) as (ts & -> & Htok).
  pose proof (tokens_of_never_empty _ _ Htok) as Hne.
  pose proof (tokens_of_no_nul _ _ Htok (no_nul_c_str line)) as Hnul.
  exists (List.length ts). split; [apply length_vector_of|]. split; [|split].
  - rewrite nth_error_vector_of.
    rewrite (proj2 (nth_error_None ts (List.length ts))) by lia.
    now rewrite Nat.eqb_refl.
  - intros i Hi. rewrite nth_error_vector_of.
    destruct (nth_error ts i) as [t|] eqn:E; [|apply nth_error_None in E; lia].
    exists t. split; [reflexivity|].
    apply nth_error_In in E.
    rewrite Forall_forall in Hne, Hnul.
    destruct (Hne t) as [H1 H2]; [now apply list_elem_of_In|].
    repeat split; auto. apply Hnul. now apply list_elem_of_In.
  - destruct ts as [|t [|u ts]]; cbn; congruence.
Qed.

(** X5. Tokenizer and logger read the line as a C string: what follows
    the first NUL byte of the buffer changes neither the vector, nor the
    test for an empty line, nor the record. *)
Theorem bytes_after_NUL_are_ignored {os : OS} (line : string) :
  lsh_split_line line = lsh_split_line (c_str line) /\
  peek (c_str line) = peek line /\
  (forall w, log_line line w = log_line (c_str line) w).
Proof.
  split; [|split].
  - destruct (lsh_split_line_spec line) as (ts & -> & Htok).
    symmetry. apply lsh_split_line_of_tokens. now rewrite c_str_idem.
  - apply peek_c_str.
  - intros w. unfold log_line. now rewrite c_str_idem.
Qed.

Lemma read_chars_splits (input line unread : string) :
  read_chars input = (line, unread) ->
  no_newline line = true /\
  (input = line ++ String LF unread \/ input = line /\ unread = EmptyString).
Proof.
  unfold no_newline. revert line unread.
  induction input as [|c input IH]; intros line unread; simpl.
  - intros H. injection H as <- <-. auto.
  - destruct (Ascii.eqb_spec c LF) as [->|Hc].
    + intros H. injection H as <- <-. auto.
    + destruct (read_chars input) as [buffer rest] eqn:E.
      intros H. injection H as <- <-.
      destruct (IH buffer rest eq_refl) as [Hn Hsplit].
      apply Ascii.eqb_neq in Hc. simpl. rewrite Hc, Hn. split; [reflexivity|].
      rewrite append_cons. destruct Hsplit as [->|[-> ->]]; auto.
Qed.

(** X6. The line reader loses nothing and never returns a newline: the
    input it found is the line it returns, then a newline and the input it
    leaves, or, at end of input, the line alone with nothing left; nothing
    else in the world changes. *)
Theorem lsh_read_line_consumes_one_line (w w' : World) (line : string) :
  lsh_read_line w = Done line w' ->
  no_newline line = true /\
  (w_stdin w = line ++ String LF (w_stdin w') \/
   w_stdin w = line /\ w_stdin w' = EmptyString) /\
  w' = set_stdin (w_stdin w') w.
Proof.
  unfold lsh_read_line. destruct (read_chars (w_stdin w)) as [buffer unread] eqn:E.
  intros H. injection H as <- <-.
  destruct (read_chars_splits _ _ _ E) as [Hn Hsplit]. auto.
Qed.

(** ** Builtins and launcher *)

Section MoreProperties.
Context {os : OS}.

(** X7. When [chdir] refuses the directory, [cd] writes "lsh: <reason>" to
    standard error, answers continue and stays where it was: children of
    later launches are still created in the old directory. *)
Theorem lsh_cd_reports_failure (args : argv) (a1 e : string) (w : World) :
  entry args 1 = Some a1 ->
  os_chdir (c_str a1) w = Err e ->
  lsh_cd args w =
    Done 1 (set_stderr (w_stderr w ++ "lsh: " ++ e ++ nl) (set_errno e w)) /\
  (forall fuel args' pid,
     is_external args' ->
     os_fork (world_of (lsh_cd args w)) = Ok pid ->
     In (EvFork pid (w_cwd w))
        (w_trace (world_of (lsh_execute fuel args' (world_of (lsh_cd args w)))))).
Proof.
  intros Ha1 Hchdir.
  assert (lsh_cd args w =
            Done 1 (set_stderr (w_stderr w ++ "lsh: " ++ e ++ nl) (set_errno e w))) as E.
  { unfold lsh_cd. rewrite Ha1. unfold mbind, M_bind, chdir. now rewrite Hchdir. }
  split; [exact E|]. rewrite E. cbn [world_of].
  intros fuel args' pid Hext Hfork.
  unfold lsh_execute. rewrite (dispatch_external _ _ _ Hext).
  apply (lsh_launch_forks fuel args' _ pid Hfork).
Qed.

Lemma print_lines_output (lines : list string) :
  forall w, print_lines lines w =
              Done tt (set_stdout (w_stdout w ++ printed_lines lines) w).
Proof.
  induction lines as [|l lines IH]; intros [input out err dir files errno trace].
  - unfold set_stdout. cbn. now rewrite append_empty_r.
  - cbn [print_lines printed_lines]. unfold mbind, M_bind, printf.
    rewrite IH. unfold set_stdout. cbn. now rewrite append_assoc.
Qed.

(** The lines of a file, written one after the other, are the file. *)
Lemma printed_lines_getlines (content : string) :
  no_nul content = true -> printed_lines (getlines content) = content.
Proof.
  unfold no_nul. induction content as [|c rest IH]; [reflexivity|]. simpl.
  intros H. apply andb_true_iff in H as [Hc Hrest]. apply negb_true_iff in Hc.
  specialize (IH Hrest).
  destruct (Ascii.eqb_spec c LF) as [->|_].
  - cbn [printed_lines c_str]. change (Ascii.eqb LF NUL) with false. cbv iota.
    rewrite IH. reflexivity.
  - destruct (getlines rest) as [|l ls].
    + cbn [printed_lines c_str] in *. rewrite Hc. now rewrite <- IH.
    + cbn [printed_lines c_str] in *. rewrite Hc, append_cons. now rewrite IH.
Qed.

Lemma lsh_history_missing (args : argv) (w : World) :
  entry args 1 = None ->
  let path := abspath w "history.txt" in
  let w1 := set_stdout (w_stdout w ++ history_header) w in
  (exists e, os_fopen_err path "r" w1 = Some e) \/
  (os_fopen_err path "r" w1 = None /\ w_files w !! path = None) ->
  exists e,
    lsh_history args w =
      Done 1 (set_stderr (w_stderr w ++ "No history found." ++ nl) (set_errno e w1)).
Proof.
  intros Hnone path w1 Hfail. unfold lsh_history. rewrite Hnone.
  unfold mbind, M_bind, printf, fopen. fold history_header. fold w1.
  change (abspath w1 "history.txt") with path. change (w_files w1) with (w_files w).
  destruct Hfail as [[e He]|[He Hfile]].
  - exists e. rewrite He. reflexivity.
  - exists ENOENT. rewrite He, Hfile. reflexivity.
Qed.

(** X8. Without a modifier and with no log to read (the file is missing or
    cannot be opened), [history] prints its header, writes "No history
    found." to standard error, answers continue and leaves the files
    alone. *)
Theorem lsh_history_without_log (args : argv) (w : World) :
  entry args 1 = None ->
  let path := abspath w "history.txt" in
  let w1 := set_stdout (w_stdout w ++ history_header) w in
  (exists e, os_fopen_err path "r" w1 = Some e) \/
  (os_fopen_err path "r" w1 = None /\ w_files w !! path = None) ->
  exists e,
    lsh_history args w =
      Done 1 (set_stderr (w_stderr w ++ "No history found." ++ nl) (set_errno e w1)).
Proof. exact (lsh_history_missing args w). Qed.

Lemma lsh_history_show (args : argv) (content : string) (w : World) :
  entry args 1 = None ->
  let path := abspath w "history.txt" in
  os_fopen_err path "r" (set_stdout (w_stdout w ++ history_header) w) = None ->
  w_files w !! path = Some content ->
  lsh_history args w =
    Done 1 (set_stdout (w_stdout w ++ history_header ++ printed_lines (getlines content)) w) /\
  (no_nul content = true ->
   lsh_history args w = Done 1 (set_stdout (w_stdout w ++ history_header ++ content) w)).
Proof.
  intros Hnone path Hopen Hfile.
  assert (lsh_history args w =
            Done 1 (set_stdout
                      (w_stdout w ++ history_header ++ printed_lines (getlines content)) w))
    as E.
  { unfold lsh_history. rewrite Hnone.
    unfold mbind, M_bind, printf, fopen. fold history_header.
    change (abspath (set_stdout (w_stdout w ++ history_header) w) "history.txt") with path.
    rewrite Hopen. cbn [String.eqb Ascii.eqb Bool.eqb].
    change (w_files (set_stdout (w_stdout w ++ history_header) w)) with (w_files w).
    rewrite Hfile. cbn [f_unread]. rewrite print_lines_output.
    unfold fclose, mret, M_ret, set_stdout. cbn. now rewrite append_assoc. }
  split; [exact E|]. intros Hnul. now rewrite E, printed_lines_getlines.
Qed.

(** X9. Without a modifier and with a readable log, [history] prints its
    header and then the log, line by line, each line as a C string; a log
    free of NUL bytes appears byte for byte.  Nothing goes to standard
    error and the log stays as it is. *)
Theorem lsh_history_prints_log (args : argv) (content : string) (w : World) :
  entry args 1 = None ->
  let path := abspath w "history.txt" in
  os_fopen_err path "r" (set_stdout (w_stdout w ++ history_header) w) = None ->
  w_files w !! path = Some content ->
  lsh_history args w =
    Done 1 (set_stdout (w_stdout w ++ history_header ++ printed_lines (getlines content)) w) /\
  (no_nul content = true ->
   lsh_history args w = Done 1 (set_stdout (w_stdout w ++ history_header ++ content) w)).
Proof. exact (lsh_history_show args content w). Qed.

(** X10. Clearing the log and then asking for it: once [remove] is not
    refused, [history -c] leaves no log behind, whether there was one or
    not, and a [history] that follows reports "No history found." *)
Theorem history_clear_then_show (clear show : argv) (a1 : string) (w : World) :
  entry clear 1 = Some a1 ->
  c_str a1 = "-c" \/ c_str a1 = "-C" ->
  entry show 1 = None ->
  let path := abspath w "history.txt" in
  os_remove_err path w = None ->
  let w1 := world_of (lsh_history clear w) in
  w_files w1 !! path = None /\
  exists e,
    lsh_history show w1 =
      Done 1 (set_stderr (w_stderr w1 ++ "No history found." ++ nl)
                (set_errno e (set_stdout (w_stdout w1 ++ history_header) w1))).
Proof.
  intros Hclear Hflag Hshow path Hremove w1.
  assert (w_cwd w1 = w_cwd w /\ w_files w1 !! path = None) as [Hcwd Hgone].
  { unfold w1, lsh_history. rewrite Hclear.
    apply clear_flag in Hflag. rewrite Hflag. cbn [Z.eqb].
    unfold mbind, M_bind, remove. fold path. rewrite Hremove.
    destruct (w_files w !! path) eqn:Hfile; cbn.
    - split; [reflexivity|]. apply lookup_delete_eq.
    - split; [reflexivity|]. exact Hfile. }
  split; [exact Hgone|].
  apply (lsh_history_missing show w1 Hshow).
  unfold abspath. rewrite Hcwd. fold (abspath w "history.txt"). fold path.
  cbn [w_files set_stdout].
  destruct (os_fopen_err path "r" (set_stdout (w_stdout w1 ++ history_header) w1)) as [e|];
    [left; eauto|right; auto].
Qed.

End MoreProperties.

(** ** Launcher and loop *)

Section LoopProperties.
Context {os : OS}.






Lemma no_nul_app (a b : string) : no_nul (a ++ b) = no_nul a && no_nul b.
Proof. apply all_chars_app. Qed.

Lemma no_nul_record (ts dir line : string) :
  no_nul (record_of (c_str ts) (c_str dir) (c_str line)) = true.
Proof.
  unfold record_of. rewrite !no_nul_app, !no_nul_c_str. reflexivity.
Qed.

(** What [log_line] leaves behind, whether the log opens or not. *)
Lemma log_line_frame (line : string) (w : World) :
  let path := abspath w "history.txt" in
  exists w',
    log_line line w = Done tt w' /\
    w_cwd w' = w_cwd w /\ w_stdout w' = w_stdout w /\ w_stdin w' = w_stdin w /\
    w_trace w' = w_trace w /\
    (forall p, p <> path -> w_files w' !! p = w_files w !! p) /\
    (forall content, w_files w !! path = Some content ->
       exists more, w_files w' !! path = Some (content ++ more)).
Proof.
  intros path.
  destruct (os_fopen_err path "a" w) as [e|] eqn:Hopen.
  - exists (set_errno e w). split.
    { unfold log_line, mbind, M_bind, fopen. fold path. now rewrite Hopen. }
    repeat split; auto.
    intros content Hc. exists EmptyString. now rewrite append_empty_r.
  - destruct (log_line_opened line w Hopen) as (r & w2 & Hcwd & Hlog).
    fold path in Hcwd, Hlog.
    destruct (getcwd_result 1024
                (set_files (<[path := default EmptyString (w_files w !! path)]> (w_files w)) w))
      as (r' & w2' & Hcwd' & Hfiles & Hout & Herr & Hdir & Htrace & Hin).
    rewrite Hcwd in Hcwd'. injection Hcwd' as <- <-.
    eexists. split; [exact Hlog|].
    destruct r as [d|]; cbn; rewrite Hfiles; cbn; repeat split; auto;
      try (intros p Hp; now rewrite !lookup_insert_ne by congruence);
      intros content Hc; rewrite lookup_insert_eq, Hc; cbn; eauto.
Qed.

(** X13. Logging is append-only and local: a record goes to [history.txt]
    of the working directory and to no other file, what that file held
    before is still there in front of anything new, and the directory, the
    output, the unread input and the children are not touched. *)
Theorem log_line_appends_locally (line : string) (w : World) :
  let path := abspath w "history.txt" in
  let w' := world_of (log_line line w) in
  (forall p, p <> path -> w_files w' !! p = w_files w !! p) /\
  (forall content, w_files w !! path = Some content ->
     exists more, w_files w' !! path = Some (content ++ more)) /\
  w_cwd w' = w_cwd w /\ w_stdout w' = w_stdout w /\ w_stdin w' = w_stdin w /\
  w_trace w' = w_trace w.
Proof.
  intros path w'.
  destruct (log_line_frame line w) as (w1 & E & H1 & H2 & H3 & H4 & H5 & H6).
  unfold w'. rewrite E. cbn [world_of]. repeat split; assumption.
Qed.

(** X14. The record of a line, when the log opens and the working directory
    is found and fits the buffer: the old content of the log followed by
    [[timestamp] [directory] line] and a newline; nothing is printed and no
    other part of the world changes. *)
Theorem log_line_writes_record (line : string) (w : World) :
  let path := abspath w "history.txt" in
  let old := default EmptyString (w_files w !! path) in
  let w1 := set_files (<[path := old]> (w_files w)) w in
  os_fopen_err path "a" w = None ->
  os_getcwd_err w1 = None ->
  (String.length (w_cwd w) < 1024)%nat ->
  log_line line w =
    Done tt (set_files
               (<[path := old ++ record_of (c_str (os_timestamp w1)) (c_str (w_cwd w))
                                           (c_str line)]> (w_files w)) w).
Proof.
  intros path old w1 Hopen Hcwd Hlen.
  destruct (log_line_opened line w Hopen) as (r & w2 & Hget & Hlog).
  fold path old w1 in Hget, Hlog.
  unfold getcwd in Hget. rewrite Hcwd in Hget.
  change (w_cwd w1) with (w_cwd w) in Hget.
  destruct (Nat.leb_spec 1024 (String.length (w_cwd w))) as [|_]; [lia|].
  injection Hget as <- <-. rewrite Hlog. cbn.
  unfold set_files. cbn. now rewrite insert_insert_eq.
Qed.

End LoopProperties.

Section SessionProperties.
Context {os : OS}.

Lemma lsh_execute_exit (fuel : nat) (args : argv) (w : World) :
  token args 0 = Some "exit" -> lsh_execute fuel args w = Done 0 w.
Proof.
  intros H. unfold lsh_execute. now rewrite (dispatch_resolve _ _ _ _ H).
Qed.

Lemma lsh_execute_history (fuel : nat) (args : argv) :
  token args 0 = Some "history" -> lsh_execute fuel args = lsh_history args.
Proof.
  intros H. unfold lsh_execute. now rewrite (dispatch_resolve _ _ _ _ H).
Qed.

Lemma peek_NUL_blank (line : string) : peek line = NUL -> lsh_split_line line = [None].
Proof.
  intros H. apply lsh_split_line_blank. apply c_str_empty_iff in H. now rewrite H.
Qed.

(** X15. The line [history] is logged before it is run, so the listing it
    prints ends with its own record: with a log that opens for appending
    and for reading, the round prints the prompt, the header, the old log
    and the record of the line, and answers continue. *)
Theorem history_command_lists_itself (fuel : nat) (line unread : string) (w : World) :
  read_chars (w_stdin w) = (line, unread) ->
  lsh_split_line line = vector_of ["history"] ->
  let w1 := set_stdin unread (set_stdout (w_stdout w ++ "> ") w) in
  let path := abspath w "history.txt" in
  let old := default EmptyString (w_files w !! path) in
  os_fopen_err path "a" w1 = None ->
  (forall w', os_fopen_err path "r" w' = None) ->
  no_nul old = true ->
  exists ts dir w2,
    lsh_round fuel w = Done 1 w2 /\
    w_stdout w2 =
      w_stdout w ++ "> " ++ history_header ++ old ++ record_of ts dir (c_str line) /\
    w_files w2 !! path = Some (old ++ record_of ts dir (c_str line)).
Proof.
  intros Hread Hsplit w1 path old Hopen Hreadable Hold.
  rewrite (lsh_round_unfold fuel w line unread Hread). fold w1.
  destruct (Ascii.eqb_spec (peek line) NUL) as [Hz|_].
  { apply peek_NUL_blank in Hz. rewrite Hz in Hsplit. discriminate. }
  destruct (log_line_opened line w1 Hopen) as (r & w2 & Hcwd & Hlog).
  destruct (getcwd_result 1024
              (set_files (<[abspath w1 "history.txt" :=
                             default EmptyString (w_files w1 !! abspath w1 "history.txt")]>
                            (w_files w1)) w1))
    as (r' & w2' & Hcwd' & Hfiles & Hout & Herr & Hdir & _).
  rewrite Hcwd in Hcwd'. injection Hcwd' as <- <-.
  change (abspath w1 "history.txt") with path in *.
  change (w_files w1) with (w_files w) in *. fold old in Hlog, Hfiles.
  rewrite Hlog, Hsplit.
  rewrite (lsh_execute_history fuel (vector_of ["history"]) eq_refl).
  set (w3 := match r with
             | Some _ => w2
             | None => set_stderr (w_stderr w1 ++ "getcwd error: " ++ w_errno w2 ++ nl) w2
             end) in *.
  set (rec := record_of (c_str (os_timestamp w3)) (c_str (default "unknown" r)) (c_str line)).
  assert (w_files w3 = <[path := old]> (w_files w) /\ w_cwd w3 = w_cwd w /\
          w_stdout w3 = w_stdout w ++ "> ") as (Hf3 & Hd3 & Ho3).
  { unfold w3. destruct r; cbn; rewrite ?Hfiles, ?Hdir, ?Hout; auto. }
  set (w4 := set_files (<[path := old ++ rec]> (w_files w3)) w3).
  assert (abspath w4 "history.txt" = path) as Hpath
    by (unfold abspath, w4; cbn; now rewrite Hd3).
  destruct (lsh_history_show (vector_of ["history"]) (old ++ rec) w4 eq_refl) as [_ Hshow].
  - rewrite Hpath. apply Hreadable.
  - rewrite Hpath. unfold w4. cbn. apply lookup_insert_eq.
  - eexists (c_str (os_timestamp w3)), (c_str (default "unknown" r)), _.
    split; [apply Hshow; rewrite no_nul_app, Hold; apply no_nul_record|].
    cbn. rewrite Ho3, lookup_insert_eq. split; [|reflexivity].
    now rewrite !append_assoc.
Qed.

(** X16. A line whose first token is [exit] ends the loop in the round
    that reads it: one prompt is written, no child is created, the
    directory stays, the input behind the line is left unread, and [main]
    returns [EXIT_SUCCESS]. *)
Theorem exit_line_ends_loop (fuel : nat) (line rest : string) (w : World) :
  w_stdin w = line ++ String LF rest ->
  no_newline line = true ->
  token (lsh_split_line line) 0 = Some "exit" ->
  exists w',
    lsh_loop (S fuel) w = Done tt w' /\
    main (S fuel) w = Done EXIT_SUCCESS w' /\
    w_stdin w' = rest /\ w_stdout w' = w_stdout w ++ "> " /\
    w_trace w' = w_trace w /\ w_cwd w' = w_cwd w.
Proof.
  intros Hin Hline Hexit.
  assert (read_chars (w_stdin w) = (line, rest)) as Hread
    by (rewrite Hin; now apply read_chars_newline).
  assert (exists w', lsh_round fuel w = Done 0 w' /\
            w_stdin w' = rest /\ w_stdout w' = w_stdout w ++ "> " /\
            w_trace w' = w_trace w /\ w_cwd w' = w_cwd w) as (w' & Hround & Hw').
  { rewrite (lsh_round_unfold fuel w line rest Hread).
    destruct (Ascii.eqb (peek line) NUL).
    - eexists. split; [now apply lsh_execute_exit|]. repeat split.
    - destruct (log_line_frame line (set_stdin rest (set_stdout (w_stdout w ++ "> ") w)))
        as (w2 & -> & H1 & H2 & H3 & H4 & _).
      exists w2. split; [now apply lsh_execute_exit|]. repeat split; assumption. }
  exists w'. unfold main. cbn [lsh_loop]. unfold mbind, M_bind.
  rewrite Hround. cbn. repeat split; apply Hw'.
Qed.

(** X17. Empty lines cost a prompt each and nothing more: [k] of them in
    front of the input take [k] rounds, after which the loop goes on with
    the rest of the input in a world that differs by the [k] prompts only
    (no record, no child, no error). *)
Theorem empty_lines_are_skipped (k n : nat) (rest : string) :
  forall w,
    w_stdin w = newlines k ++ rest ->
    lsh_loop (k + n) w =
      lsh_loop n (set_stdin rest (set_stdout (w_stdout w ++ prompts k) w)).
Proof.
  induction k as [|k IH]; intros [input out err dir files errno trace] Hin;
    simpl in Hin; subst input.
  - unfold set_stdin, set_stdout. cbn. now rewrite append_empty_r.
  - cbn [Nat.add lsh_loop]. unfold mbind at 1, M_bind at 1.
    rewrite (lsh_round_unfold (k + n)
               (mkWorld (String LF (newlines k ++ rest)) out err dir files errno trace)
               EmptyString (newlines k ++ rest) eq_refl).
    change (Ascii.eqb (peek EmptyString) NUL) with true. cbv iota.
    change (lsh_split_line EmptyString) with ([None] : argv).
    change (lsh_execute (k + n) [None]) with (mret 1 : M Z).
    unfold mret, M_ret. cbn [Z.eqb negb].
    rewrite IH by reflexivity. unfold set_stdout, set_stdin. cbn.
    now rewrite append_assoc.
Qed.

Lemma length_append (a b : string) :
  String.length (a ++ b) = (String.length a + String.length b)%nat.
Proof.
  induction a as [|c a IH]; [reflexivity|]. rewrite append_cons. simpl. now rewrite IH.
Qed.

Lemma append_inj_l (a b c : string) : a ++ c = b ++ c -> a = b.
Proof.
  revert b. induction a as [|x a IH]; intros [|y b] E.
  - reflexivity.
  - apply (f_equal String.length) in E. rewrite append_nil_l, length_append in E.
    simpl in E. lia.
  - apply (f_equal String.length) in E. rewrite append_nil_l, length_append in E.
    simpl in E. lia.
  - rewrite !append_cons in E. injection E as -> E. f_equal. now apply IH.
Qed.

(** X18. The log belongs to the working directory: after [cd] has moved to
    another directory, a line is recorded in [history.txt] of the new
    directory, and the log of the directory the shell came from is left as
    it was. *)
Theorem history_log_follows_cd (args : argv) (a1 dir line : string) (w : World) :
  entry args 1 = Some a1 ->
  os_chdir (c_str a1) w = Ok dir ->
  dir <> w_cwd w ->
  let w1 := world_of (lsh_cd args w) in
  let w2 := world_of (log_line line w1) in
  w_files w2 !! abspath w "history.txt" = w_files w !! abspath w "history.txt" /\
  (os_fopen_err (dir ++ "/history.txt") "a" w1 = None ->
   exists ts d,
     w_files w2 !! (dir ++ "/history.txt") =
       Some (default EmptyString (w_files w !! (dir ++ "/history.txt"))
             ++ record_of ts d (c_str line))).
Proof.
  intros Ha1 Hchdir Hne w1 w2.
  assert (w1 = set_cwd dir w) as Hw1.
  { unfold w1, lsh_cd. rewrite Ha1. unfold mbind, M_bind, chdir. now rewrite Hchdir. }
  assert (abspath w1 "history.txt" = dir ++ "/history.txt") as Hpath
    by (now rewrite Hw1).
  split.
  - destruct (log_line_frame line w1) as (w' & E & _ & _ & _ & _ & Hother & _).
    unfold w2. rewrite E. cbn [world_of]. rewrite Hother; [now rewrite Hw1|].
    rewrite Hpath. unfold abspath. intros E'. apply Hne. symmetry.
    now apply append_inj_l in E'.
  - intros Hopen. rewrite <- Hpath in Hopen.
    destruct (log_line_opened line w1 Hopen) as (r & w3 & Hcwd & Hlog).
    destruct (getcwd_result 1024
                (set_files (<[abspath w1 "history.txt" :=
                               default EmptyString (w_files w1 !! abspath w1 "history.txt")]>
                              (w_files w1)) w1))
      as (r' & w3' & Hcwd' & Hfiles & _).
    rewrite Hcwd in Hcwd'. injection Hcwd' as <- <-.
    unfold w2. rewrite Hlog. cbn [world_of]. rewrite <- Hpath.
    destruct r as [d|]; eexists _, _; cbn; rewrite lookup_insert_eq;
      rewrite Hw1; reflexivity.
Qed.

End SessionProperties.

(** ** The further properties on the sample system *)

Lemma lsh_split_line_ignores_outer_separators_witness :
  lsh_split_line ("  " ++ "ls -l" ++ String TAB " ") = lsh_split_line "ls -l".
Proof.
  apply (lsh_split_line_ignores_outer_separators "  " "ls -l" (String TAB " "));
    reflexivity.
Defined.

Lemma lsh_split_line_concat_witness :
  lsh_split_line ("cd" ++ String SPC "/tmp  x") = vector_of (["cd"] ++ ["/tmp"; "x"]).
Proof.
  apply (lsh_split_line_concat "cd" "/tmp  x" SPC ["cd"] ["/tmp"; "x"]); reflexivity.
Defined.

Lemma lsh_split_line_join_witness :
  lsh_split_line (join ["ls"; "-l"; "/tmp"]) = vector_of ["ls"; "-l"; "/tmp"].
Proof.
  apply (lsh_split_line_join ["ls"; "-l"; "/tmp"]).
  - repeat (constructor; [split; [discriminate|reflexivity]|]). constructor.
  - repeat (constructor; [reflexivity|]). constructor.
Defined.

Lemma lsh_read_line_consumes_one_line_witness :
  no_newline "  " = true /\
  (w_stdin Sample.blank = "  " ++ String LF "exit" \/
   w_stdin Sample.blank = "  " /\ "exit" = EmptyString) /\
  set_stdin "exit" Sample.blank = set_stdin "exit" Sample.blank.
Proof.
  apply (lsh_read_line_consumes_one_line
           Sample.blank (set_stdin "exit" Sample.blank) "  ").
  reflexivity.
Defined.

Lemma lsh_cd_reports_failure_witness :
  lsh_cd (os := Sample.os) [Some "cd"; Some "/nowhere"; None] Sample.home =
    Done 1 (set_stderr ("lsh: " ++ ENOENT ++ nl) (set_errno ENOENT Sample.home)).
Proof.
  apply (lsh_cd_reports_failure (os := Sample.os)
           [Some "cd"; Some "/nowhere"; None] "/nowhere" ENOENT Sample.home);
    reflexivity.
Defined.

Lemma lsh_history_without_log_witness :
  exists e,
    lsh_history (os := Sample.os) [Some "history"; None]
                (Sample.world EmptyString "/tmp" None) =
      Done 1 (set_stderr ("No history found." ++ nl)
                (set_errno e
                   (set_stdout history_header (Sample.world EmptyString "/tmp" None)))).
Proof.
  apply (lsh_history_without_log (os := Sample.os) [Some "history"; None]
           (Sample.world EmptyString "/tmp" None) eq_refl).
  right. split; reflexivity.
Defined.

Lemma lsh_history_prints_log_witness :
  lsh_history (os := Sample.os) [Some "history"; None] Sample.home =
    Done 1 (set_stdout (history_header ++ "[2024-05-16 18:02:11] [/home] ls" ++ nl)
              Sample.home).
Proof.
  apply (lsh_history_prints_log (os := Sample.os) [Some "history"; None]
           ("[2024-05-16 18:02:11] [/home] ls" ++ nl) Sample.home);
    reflexivity.
Defined.

Lemma history_clear_then_show_witness :
  w_files (world_of (lsh_history (os := Sample.os)
                       [Some "history"; Some "-c"; None] Sample.home))
    !! "/home/history.txt" = None /\
  exists e,
    lsh_history (os := Sample.os) [Some "history"; None]
      (world_of (lsh_history (os := Sample.os)
                   [Some "history"; Some "-c"; None] Sample.home)) =
      Done 1
        (set_stderr
           (w_stderr (world_of (lsh_history (os := Sample.os)
                                  [Some "history"; Some "-c"; None] Sample.home))
            ++ "No history found." ++ nl)
           (set_errno e
              (set_stdout
                 (w_stdout (world_of (lsh_history (os := Sample.os)
                                        [Some "history"; Some "-c"; None] Sample.home))
                  ++ history_header)
                 (world_of (lsh_history (os := Sample.os)
                              [Some "history"; Some "-c"; None] Sample.home))))).
Proof.
  apply (history_clear_then_show (os := Sample.os)
           [Some "history"; Some "-c"; None] [Some "history"; None] "-c" Sample.home
           eq_refl (or_introl eq_refl) eq_refl).
  reflexivity.
Defined.


Lemma log_line_writes_record_witness :
  log_line (os := Sample.os) "ls -l" Sample.home =
    Done tt (set_files
               {[ "/home/history.txt" :=
                    ("[2024-05-16 18:02:11] [/home] ls" ++ nl)
                    ++ record_of "2024-05-17 09:30:00" "/home" "ls -l" ]}
               Sample.home).
Proof.
  rewrite (log_line_writes_record (os := Sample.os) "ls -l" Sample.home);
    [vm_compute; reflexivity|reflexivity|reflexivity|vm_compute; lia].
Defined.

Lemma history_command_lists_itself_witness :
  exists ts dir w2,
    lsh_round (os := Sample.os) 0 (Sample.world ("history" ++ nl) "/tmp" None) = Done 1 w2 /\
    w_stdout w2 = "> " ++ history_header ++ record_of ts dir "history" /\
    w_files w2 !! "/tmp/history.txt" = Some (record_of ts dir "history").
Proof.
  apply (history_command_lists_itself (os := Sample.os) 0 "history" EmptyString
           (Sample.world ("history" ++ nl) "/tmp" None));
    reflexivity.
Defined.

Lemma exit_line_ends_loop_witness :
  exists w',
    lsh_loop (os := Sample.os) 1 (Sample.world ("exit now" ++ String LF "ls") "/home" None)
      = Done tt w' /\
    main (os := Sample.os) 1 (Sample.world ("exit now" ++ String LF "ls") "/home" None)
      = Done EXIT_SUCCESS w' /\
    w_stdin w' = "ls" /\ w_stdout w' = "> " /\ w_trace w' = [] /\ w_cwd w' = "/home".
Proof.
  apply (exit_line_ends_loop (os := Sample.os) 0 "exit now" "ls"
           (Sample.world ("exit now" ++ String LF "ls") "/home" None));
    reflexivity.
Defined.

Lemma empty_lines_are_skipped_witness :
  lsh_loop (os := Sample.os) (2 + 1) (Sample.world (newlines 2 ++ "exit") "/home" None) =
    lsh_loop (os := Sample.os) 1 (set_stdin "exit"
                  (set_stdout (prompts 2) (Sample.world (newlines 2 ++ "exit") "/home" None))).
Proof.
  apply (empty_lines_are_skipped (os := Sample.os) 2 1 "exit"
           (Sample.world (newlines 2 ++ "exit") "/home" None)).
  reflexivity.
Defined.

Lemma history_log_follows_cd_witness :
  w_files (world_of (log_line (os := Sample.os) "ls"
                       (world_of (lsh_cd (os := Sample.os)
                                    [Some "cd"; Some "/tmp"; None] Sample.home))))
    !! "/home/history.txt"
  = Some ("[2024-05-16 18:02:11] [/home] ls" ++ nl).
Proof.
  refine (eq_trans (proj1 (history_log_follows_cd (os := Sample.os)
                             [Some "cd"; Some "/tmp"; None] "/tmp" "/tmp" "ls" Sample.home
                             eq_refl eq_refl _)) _);
    [discriminate|reflexivity].
Defined.
